(** * Path confinement: the policy engine and the mediating file-system adapter

    A shallow embedding of [libs/platform/src/security.ts] (the policy
    engine), of the secure file-system adapter that follows it, and of
    [apps/server/src/middleware/validate-paths.ts], with the properties the
    specification states about them.

    Strings are byte strings.  Node's [path] module is modelled in its POSIX
    flavour; the file system is an interface ([FileSystem]) of the two
    synchronous probes the validators use, with an in-memory implementation
    ([MemFs]) for concrete runs. *)

From Stdlib Require Import String Ascii List Bool Arith.
From stdpp Require Import base option gmap strings pretty.
Import ListNotations.

Local Open Scope string_scope.
Local Open Scope list_scope.

(** ** JavaScript string primitives *)

Module JsString.

(** [s.startsWith(pre)] *)
Fixpoint startsWith (s pre : string) {struct pre} : bool :=
  match pre with
  | EmptyString => true
  | String a pre' =>
      match s with
      | EmptyString => false
      | String b s' => Ascii.eqb a b && startsWith s' pre'
      end
  end.

Definition reverse (s : string) : string :=
  string_of_list_ascii (rev (list_ascii_of_string s)).

(** [s.endsWith(suf)] *)
Definition endsWith (s suf : string) : bool :=
  startsWith (reverse s) (reverse suf).

(** [s.slice(0, -n)] *)
Definition dropEnd (n : nat) (s : string) : string :=
  String.substring 0 (String.length s - n)%nat s.

Definition lowerChar (c : ascii) : ascii :=
  let n := nat_of_ascii c in
  if ((65 <=? n) && (n <=? 90))%nat then ascii_of_nat (n + 32)%nat
  else c.

(** [s.toLowerCase()] on byte strings: only A-Z change. *)
Fixpoint toLowerCase (s : string) : string :=
  match s with
  | EmptyString => EmptyString
  | String c s' => String (lowerChar c) (toLowerCase s')
  end.

(** JavaScript truthiness of a string: the empty string is falsy. *)
Definition truthy (s : string) : bool :=
  match s with EmptyString => false | String _ _ => true end.

Definition upperChar (c : ascii) : ascii :=
  ascii_of_nat (nat_of_ascii c - 32)%nat.

Definition isLowerLetter (c : ascii) : bool :=
  ((97 <=? nat_of_ascii c) && (nat_of_ascii c <=? 122))%nat.

Fixpoint lowerWord (s : string) : bool :=
  match s with
  | EmptyString => true
  | String c s' => isLowerLetter c && lowerWord s'
  end.

(** [v] is [target], a word of lower-case letters, up to the case of each
    letter. *)
Fixpoint equalsIgnoringCase (v target : string) : bool :=
  match v, target with
  | EmptyString, EmptyString => true
  | String a v', String b target' =>
      (Ascii.eqb a b || Ascii.eqb a (upperChar b))
      && equalsIgnoringCase v' target'
  | _, _ => false
  end.

End JsString.

(** ** Node's [path] module, POSIX flavour

    The functions work on the segments between separators, which is what
    Node's character loops compute.  The working directory [cwd] is what
    [process.cwd()] reports. *)

Module PosixPath.

Definition isSep (c : ascii) : bool := Ascii.eqb c "/".

(** The pieces of [s] between separators (empty pieces included). *)
Fixpoint split (s : string) : list string :=
  match s with
  | EmptyString => [EmptyString]
  | String c s' =>
      if isSep c then EmptyString :: split s'
      else match split s' with
           | x :: xs => String c x :: xs
           | [] => [String c EmptyString]
           end
  end.

(** [segs.join('/')] *)
Fixpoint joinSegs (segs : list string) : string :=
  match segs with
  | [] => EmptyString
  | [x] => x
  | x :: rest => x +:+ "/" +:+ joinSegs rest
  end.

(** One separator-delimited piece of [normalizeString]; [res] is the
    result so far, last segment first. *)
Definition normalizeStep (allowAboveRoot : bool) (res : list string)
    (seg : string) : list string :=
  if String.eqb seg "" || String.eqb seg "." then res
  else if String.eqb seg ".." then
    match res with
    | top :: rest =>
        if String.eqb top ".."
        then (if allowAboveRoot then ".." :: res else res)
        else rest
    | [] => if allowAboveRoot then [".."] else []
    end
  else seg :: res.

Definition normalizeString (allowAboveRoot : bool) (p : string)
    : list string :=
  rev (fold_left (normalizeStep allowAboveRoot) (split p) []).

(** [path.isAbsolute(p)] *)
Definition isAbsolute (p : string) : bool :=
  match p with
  | String c _ => isSep c
  | EmptyString => false
  end.

Definition endsWithSep (p : string) : bool :=
  match rev (list_ascii_of_string p) with
  | c :: _ => isSep c
  | [] => false
  end.

(** [path.normalize(p)] *)
Definition normalize (p : string) : string :=
  if negb (JsString.truthy p) then "."
  else
    let abs := isAbsolute p in
    let trailing := endsWithSep p in
    let body := joinSegs (normalizeString (negb abs) p) in
    if negb (JsString.truthy body) then
      (if abs then "/" else if trailing then "./" else ".")
    else
      let body' := if trailing then body +:+ "/" else body in
      if abs then "/" +:+ body' else body'.

(** [path.join(a, b)]: empty arguments are skipped. *)
Definition join (a b : string) : string :=
  match JsString.truthy a, JsString.truthy b with
  | true, true => normalize (a +:+ "/" +:+ b)
  | true, false => normalize a
  | false, true => normalize b
  | false, false => "."
  end.

(** [path.basename(p)]: the last non-empty piece. *)
Definition basename (p : string) : string :=
  List.last (List.filter JsString.truthy (split p)) "".

Fixpoint dropWhile {A} (f : A -> bool) (l : list A) : list A :=
  match l with
  | x :: l' => if f x then dropWhile f l' else l
  | [] => []
  end.

(** [path.dirname(p)]: scan from the end down to index 1 for the
    separator that precedes the last piece. *)
Definition dirname (p : string) : string :=
  match list_ascii_of_string p with
  | [] => "."
  | c0 :: rest =>
      let hasRoot := isSep c0 in
      match dropWhile (fun c => negb (isSep c))
              (dropWhile isSep (rev rest)) with
      | [] => if hasRoot then "/" else "."
      | _ :: before =>
          if hasRoot && Nat.eqb (List.length before) 0%nat then "//"
          else string_of_list_ascii (c0 :: rev before)
      end
  end.

(** [path.resolve(p)] with one argument.  A relative [p] is taken
    against the working directory [cwd], which the operating system
    reports as an absolute path, so the result is always absolute. *)
Definition resolve (cwd p : string) : string :=
  let full := if isAbsolute p then p else cwd +:+ "/" +:+ p in
  "/" +:+ joinSegs (normalizeString false full).

Fixpoint commonPrefixLength (a b : list string) : nat :=
  match a, b with
  | x :: a', y :: b' =>
      if String.eqb x y then S (commonPrefixLength a' b') else 0
  | _, _ => 0
  end.

(** [path.relative(from, to)]: one [..] for each segment of [from] below
    the common ancestor, then the rest of [to]. *)
Definition relative (cwd from to : string) : string :=
  if String.eqb from to then ""
  else
    let from' := resolve cwd from in
    let to' := resolve cwd to in
    if String.eqb from' to' then ""
    else
      let f := normalizeString false from' in
      let t := normalizeString false to' in
      let n := commonPrefixLength f t in
      joinSegs (repeat ".." (List.length f - n)%nat ++ skipn n t).

(** No separator inside. *)
Fixpoint noSep (s : string) : bool :=
  match s with
  | EmptyString => true
  | String c s' => negb (isSep c) && noSep s'
  end.

(** A segment of a resolved path: not empty, not a dot segment, no
    separator inside. *)
Definition cleanSeg (s : string) : bool :=
  negb (String.eqb s "") && negb (String.eqb s ".")
  && negb (String.eqb s "..") && noSep s.

(** [Some extra] when [b] is [a] followed by [extra]. *)
Fixpoint stripPrefix (a b : list string) : option (list string) :=
  match a, b with
  | [], _ => Some b
  | x :: a', y :: b' => if String.eqb x y then stripPrefix a' b' else None
  | _ :: _, [] => None
  end.

(** The absolute path with the given segments. *)
Definition absolutePath (segs : list string) : string :=
  "/" +:+ joinSegs segs.

End PosixPath.

(** ** Errors, results and effects *)

Inductive ErrnoCode := ENOENT | ENOTDIR | EACCES | ELOOP.

(** What the modelled code throws: [PathNotAllowedError] with the
    constructor's argument, a system error with its [code], and the
    middleware's [InvalidPathTypeError]. *)
Inductive Error :=
| PathNotAllowedError (filePath : string)
| ErrnoException (code : ErrnoCode)
| InvalidPathTypeError (paramName expectedType actualType : string).

(** [error.message]; the modelled code reads it only for its own two
    error classes, a system error is represented by its code. *)
Definition errorMessage (e : Error) : string :=
  match e with
  | PathNotAllowedError filePath =>
      "Path not allowed: " +:+ filePath +:+
      ". Must be within ALLOWED_ROOT_DIRECTORY or DATA_DIR."
  | ErrnoException ENOENT => "ENOENT"
  | ErrnoException ENOTDIR => "ENOTDIR"
  | ErrnoException EACCES => "EACCES"
  | ErrnoException ELOOP => "ELOOP"
  | InvalidPathTypeError paramName expectedType actualType =>
      "Invalid type for '" +:+ paramName +:+ "': expected " +:+
      expectedType +:+ ", got " +:+ actualType
  end.

(** [(error as NodeJS.ErrnoException).code === 'ENOENT'] *)
Definition isENOENT (e : Error) : bool :=
  match e with
  | ErrnoException ENOENT => true
  | _ => false
  end.

Inductive result (A : Type) : Type :=
| Ok (a : A)
| Throw (e : Error).
Arguments Ok {A} a.
Arguments Throw {A} e.

(** Sequencing of code that may throw. *)
Definition andThen {A B} (r : result A) (k : A -> result B) : result B :=
  match r with
  | Ok a => k a
  | Throw e => Throw e
  end.

Inductive ConsoleLevel := ConsoleLog | ConsoleWarn | ConsoleError.

(** The option objects of the adapter's operations. *)
Record MkdirOptions := { mkdirRecursive : option bool; mkdirMode : option nat }.
Record RmOptions := { rmRecursive : option bool; rmForce : option bool }.
Record ReaddirOptions := {
  withFileTypes : option bool;
  readdirEncoding : option string
}.

(** The calls the adapter delegates to [fs/promises]. *)
Inductive FsCall :=
| FsAccess (path : string) (mode : option nat)
| FsReadFile (path : string) (encoding : option string)
| FsWriteFile (path data : string) (encoding : option string)
| FsMkdir (path : string) (options : option MkdirOptions)
| FsReaddir (path : string) (withFileTypes : bool)
| FsStat (path : string)
| FsRm (path : string) (options : option RmOptions)
| FsUnlink (path : string)
| FsCopyFile (src dest : string) (mode : option nat)
| FsAppendFile (path data : string) (encoding : option string)
| FsRename (oldPath newPath : string)
| FsLstat (path : string).

(** What a run does besides returning: the synchronous probes of the file
    system, the console lines, and the delegated calls. *)
Inductive Event :=
| EvLstatSync (path : string)
| EvRealpathSync (path : string)
| EvConsole (level : ConsoleLevel) (message : string)
| EvFs (call : FsCall).

(** A computation: the events it performed, in order, and how it ended. *)
Definition M (A : Type) : Type := list Event * result A.

Definition ret {A} (a : A) : M A := ([], Ok a).
Definition throw {A} (e : Error) : M A := ([], Throw e).
Definition emit (ev : Event) : M unit := ([ev], Ok tt).
Definition lift {A} (r : result A) : M A := ([], r).

Definition bind {A B} (m : M A) (k : A -> M B) : M B :=
  match m with
  | (t, Ok a) => let '(t', r) := k a in (t ++ t', r)
  | (t, Throw e) => (t, Throw e)
  end.

(** [try { m } catch (error) { h error }] *)
Definition tryCatch {A} (m : M A) (h : Error -> M A) : M A :=
  match m with
  | (t, Ok a) => (t, Ok a)
  | (t, Throw e) => let '(t', r) := h e in (t ++ t', r)
  end.

Notation "x <- m ;; k" := (bind m (fun x => k))
  (at level 100, m at next level, right associativity).
Notation "m ;;; k" := (bind m (fun _ => k))
  (at level 100, right associativity).

Definition trace {A} (m : M A) : list Event := fst m.
Definition outcome {A} (m : M A) : result A := snd m.

(** ** The process and the file system *)

(** [process.cwd()] and [process.env]. *)
Record Process := {
  cwd : string;
  env : gmap string string
}.

Record Stats := { isSymbolicLink : bool }.

(** [fs.lstatSync] and [fs.realpathSync]: each returns or throws a system
    error. *)
Record FileSystem := {
  lstatSync : string -> ErrnoCode + Stats;
  realpathSync : string -> ErrnoCode + string
}.

Definition ofErrno {A} (r : ErrnoCode + A) : result A :=
  match r with
  | inl code => Throw (ErrnoException code)
  | inr a => Ok a
  end.

(** ** The policy engine ([security.ts]) *)

Inductive SecurityMode := Strict | Permissive.

(** The module's three variables. *)
Record PolicyState := {
  securityMode : SecurityMode;
  allowedRootDirectory : option string;
  dataDirectory : option string
}.

(** Their values when the module is loaded. *)
Definition initialState : PolicyState :=
  {| securityMode := Strict;
     allowedRootDirectory := None;
     dataDirectory := None |}.

Module Security.
Section WithProcess.

Variable proc : Process.

Definition resolve (p : string) : string := PosixPath.resolve (cwd proc) p.

(** [isPathWithinDirectory(resolvedPath, directoryPath)] *)
Definition isPathWithinDirectory (resolvedPath directoryPath : string)
    : bool :=
  let relativePath :=
    PosixPath.relative (cwd proc) directoryPath resolvedPath in
  negb (JsString.startsWith relativePath "..")
  && negb (PosixPath.isAbsolute relativePath).

(** [process.env.SECURITY_MODE?.toLowerCase() === 'permissive'] *)
Definition modeIsPermissive : bool :=
  match env proc !! "SECURITY_MODE" with
  | Some v => String.eqb (JsString.toLowerCase v) "permissive"
  | None => false
  end.

(** A variable of [process.env] that is set and not empty. *)
Definition envTruthy (name : string) : option string :=
  match env proc !! name with
  | Some v => if JsString.truthy v then Some v else None
  | None => None
  end.

Definition permissiveWarning : string :=
  "[Security] WARNING: Running in PERMISSIVE mode - all paths allowed when ALLOWED_ROOT_DIRECTORY is not set. This is not recommended for production environments.".
Definition strictNoRootError : string :=
  "[Security] CRITICAL: ALLOWED_ROOT_DIRECTORY not set in strict mode. All file operations outside DATA_DIR will be denied. Set ALLOWED_ROOT_DIRECTORY or use SECURITY_MODE=permissive to allow all paths.".
Definition permissiveNoRootWarning : string :=
  "[Security] WARNING: ALLOWED_ROOT_DIRECTORY not set - allowing access to all paths".

(** [initAllowedPaths()]: the console lines it writes and the new values
    of the module's variables. *)
Definition initAllowedPaths (st : PolicyState) : M PolicyState :=
  (* Load security mode *)
  st1 <- (if modeIsPermissive
          then emit (EvConsole ConsoleWarn permissiveWarning) ;;;
               ret {| securityMode := Permissive;
                      allowedRootDirectory := allowedRootDirectory st;
                      dataDirectory := dataDirectory st |}
          else ret {| securityMode := Strict;
                      allowedRootDirectory := allowedRootDirectory st;
                      dataDirectory := dataDirectory st |}) ;;
  (* Load ALLOWED_ROOT_DIRECTORY *)
  st2 <- (match envTruthy "ALLOWED_ROOT_DIRECTORY" with
          | Some rootDir =>
              let r := resolve rootDir in
              emit (EvConsole ConsoleLog
                      ("[Security] ALLOWED_ROOT_DIRECTORY configured: "
                       +:+ r)) ;;;
              ret {| securityMode := securityMode st1;
                     allowedRootDirectory := Some r;
                     dataDirectory := dataDirectory st1 |}
          | None =>
              match securityMode st1 with
              | Strict =>
                  emit (EvConsole ConsoleError strictNoRootError) ;;;
                  ret st1
              | Permissive =>
                  emit (EvConsole ConsoleWarn permissiveNoRootWarning) ;;;
                  ret st1
              end
          end) ;;
  (* Load DATA_DIR *)
  match envTruthy "DATA_DIR" with
  | Some dataDir =>
      let d := resolve dataDir in
      emit (EvConsole ConsoleLog
              ("[Security] DATA_DIR configured: " +:+ d)) ;;;
      ret {| securityMode := securityMode st2;
             allowedRootDirectory := allowedRootDirectory st2;
             dataDirectory := Some d |}
  | None => ret st2
  end.

Variable st : PolicyState.

(** A module variable holding a directory: [null] and the empty string
    are falsy. *)
Definition configured (dir : option string) : option string :=
  match dir with
  | Some d => if JsString.truthy d then Some d else None
  | None => None
  end.

(** [isPathAllowed(filePath)] *)
Definition isPathAllowed (filePath : string) : bool :=
  let resolvedPath := resolve filePath in
  if match configured (dataDirectory st) with
     | Some d => isPathWithinDirectory resolvedPath d
     | None => false
     end
  then true
  else
    match configured (allowedRootDirectory st) with
    | None =>
        match securityMode st with
        | Permissive => true
        | Strict => false
        end
    | Some root =>
        if isPathWithinDirectory resolvedPath root then true else false
    end.

(** [validatePath(filePath)] *)
Definition validatePath (filePath : string) : result string :=
  let resolvedPath := resolve filePath in
  if negb (isPathAllowed resolvedPath)
  then Throw (PathNotAllowedError filePath)
  else Ok resolvedPath.

Variable fs : FileSystem.

Definition lstatSyncM (p : string) : M Stats :=
  emit (EvLstatSync p) ;;; lift (ofErrno (lstatSync fs p)).

Definition realpathSyncM (p : string) : M string :=
  emit (EvRealpathSync p) ;;; lift (ofErrno (realpathSync fs p)).

(** [validatePathWithSymlinkCheck(filePath, { requireExists })] *)
Definition validatePathWithSymlinkCheck (filePath : string)
    (requireExists : bool) : M string :=
  let resolvedPath := resolve filePath in
  tryCatch
    (lstats <- lstatSyncM resolvedPath ;;
     realPath <- realpathSyncM resolvedPath ;;
     (if negb (isPathAllowed realPath)
      then throw (PathNotAllowedError
                    (filePath +:+ " (resolves to " +:+ realPath
                     +:+ " via symlink)"))
      else ret tt) ;;;
     (if isSymbolicLink lstats
      then emit (EvConsole ConsoleLog
                   ("[Security] Symlink detected: " +:+ resolvedPath
                    +:+ " -> " +:+ realPath))
      else ret tt) ;;;
     ret realPath)
    (fun error =>
       if isENOENT error then
         if requireExists then throw error
         else
           let parentDir := PosixPath.dirname resolvedPath in
           tryCatch
             (realParentPath <- realpathSyncM parentDir ;;
              (if negb (isPathAllowed realParentPath)
               then throw (PathNotAllowedError
                             (filePath +:+ " (parent resolves to "
                              +:+ realParentPath +:+ ")"))
               else ret tt) ;;;
              ret (PosixPath.join realParentPath
                     (PosixPath.basename resolvedPath)))
             (fun parentError =>
                if isENOENT parentError
                then lift (validatePath filePath)
                else throw parentError)
       else throw error).

End WithProcess.
End Security.

(** [dir] is configured and the containment primitive accepts
    [resolvedPath] under it. *)
Definition containedIn (proc : Process) (resolvedPath : string)
    (dir : option string) : Prop :=
  exists d, Security.configured dir = Some d /\
            Security.isPathWithinDirectory proc resolvedPath d = true.

Definition unset (dir : option string) : Prop :=
  Security.configured dir = None.

(** The value of a directory variable of the module after
    [initAllowedPaths] has read the environment variable [name]: unset and
    empty leave it as it was. *)
Definition loaded (proc : Process) (name : string) (before : option string)
    : option string :=
  match env proc !! name with
  | None | Some EmptyString => before
  | Some v => Some (Security.resolve proc v)
  end.

(** Containment as the glossary words it: the ancestor chain of
    [candidate] includes [boundary], that is, the segments of [boundary]
    begin the segments of [candidate]. *)
Definition isDescendantOrSelf (boundary candidate : string) : bool :=
  match PosixPath.stripPrefix (PosixPath.normalizeString false boundary)
          (PosixPath.normalizeString false candidate) with
  | Some _ => true
  | None => false
  end.

(** ** An in-memory file system

    Entries are keyed by their absolute, normalised path; the root
    directory is always there.  It implements [FileSystem] for concrete
    runs. *)

Module MemFs.

Inductive Node := Dir | File | Symlink (target : string).

Definition pathOf (segs : list string) : string :=
  "/" +:+ PosixPath.joinSegs segs.

Section WithEntries.

Variable entries : gmap string Node.

(** Walk the segments [rest] from the directory [cur], following
    symbolic links ([followLast]: also when the link is the last
    segment).  Each step uses one unit of [fuel]; running out is the
    kernel's [ELOOP]. *)
Fixpoint walk (fuel : nat) (followLast : bool) (cur rest : list string)
    : ErrnoCode + list string :=
  match fuel with
  | O => inl ELOOP
  | S fuel' =>
      match rest with
      | [] => inr cur
      | seg :: rest' =>
          if String.eqb seg "" || String.eqb seg "."
          then walk fuel' followLast cur rest'
          else if String.eqb seg ".."
          then walk fuel' followLast (removelast cur) rest'
          else
            let here := cur ++ [seg] in
            match entries !! pathOf here with
            | None => inl ENOENT
            | Some Dir => walk fuel' followLast here rest'
            | Some File =>
                match rest' with
                | [] => inr here
                | _ => inl ENOTDIR
                end
            | Some (Symlink target) =>
                match rest', followLast with
                | [], false => inr here
                | _, _ =>
                    walk fuel' followLast
                      (if PosixPath.isAbsolute target then [] else cur)
                      (PosixPath.split target ++ rest')
                end
            end
      end
  end.

Definition fuel : nat := 64.

Definition realpath (p : string) : ErrnoCode + string :=
  match walk fuel true [] (PosixPath.split p) with
  | inl code => inl code
  | inr segs => inr (pathOf segs)
  end.

Definition lstat (p : string) : ErrnoCode + Stats :=
  match walk fuel false [] (PosixPath.split p) with
  | inl code => inl code
  | inr segs =>
      inr {| isSymbolicLink :=
               match entries !! pathOf segs with
               | Some (Symlink _) => true
               | _ => false
               end |}
  end.

Definition fileSystem : FileSystem :=
  {| lstatSync := lstat; realpathSync := realpath |}.

End WithEntries.

End MemFs.

(** ** The secure file-system adapter

    An operation validates its path arguments and then calls
    [fs/promises]; the call is recorded as an event, what the file system
    answers later is not modelled. *)

Module SecureFs.
Section WithPolicy.

Variable proc : Process.
Variable st : PolicyState.
Variable fs : FileSystem.

Definition validatePath (filePath : string) : M string :=
  lift (Security.validatePath proc st filePath).

(** [requireExists] is [true] when the caller passes no options. *)
Definition validatePathWithSymlinkCheck (filePath : string)
    (requireExists : bool) : M string :=
  Security.validatePathWithSymlinkCheck proc st fs filePath requireExists.

Definition access (filePath : string) (mode : option nat) : M unit :=
  validatedPath <- validatePathWithSymlinkCheck filePath true ;;
  emit (EvFs (FsAccess validatedPath mode)).

Definition readFile (filePath : string) (encoding : option string)
    : M unit :=
  validatedPath <- validatePathWithSymlinkCheck filePath true ;;
  match encoding with
  | Some e =>
      if JsString.truthy e
      then emit (EvFs (FsReadFile validatedPath (Some e)))
      else emit (EvFs (FsReadFile validatedPath None))
  | None => emit (EvFs (FsReadFile validatedPath None))
  end.

Definition writeFile (filePath data : string) (encoding : option string)
    : M unit :=
  validatedPath <- validatePathWithSymlinkCheck filePath false ;;
  emit (EvFs (FsWriteFile validatedPath data encoding)).

Definition mkdir (dirPath : string) (options : option MkdirOptions)
    : M unit :=
  validatedPath <- validatePathWithSymlinkCheck dirPath false ;;
  emit (EvFs (FsMkdir validatedPath options)).

Definition readdir (dirPath : string) (options : option ReaddirOptions)
    : M unit :=
  validatedPath <- validatePathWithSymlinkCheck dirPath true ;;
  match options with
  | Some {| withFileTypes := Some true |} =>
      emit (EvFs (FsReaddir validatedPath true))
  | _ => emit (EvFs (FsReaddir validatedPath false))
  end.

Definition stat (filePath : string) : M unit :=
  validatedPath <- validatePathWithSymlinkCheck filePath true ;;
  emit (EvFs (FsStat validatedPath)).

Definition rm (filePath : string) (options : option RmOptions) : M unit :=
  validatedPath <- validatePathWithSymlinkCheck filePath true ;;
  emit (EvFs (FsRm validatedPath options)).

Definition unlink (filePath : string) : M unit :=
  validatedPath <- validatePathWithSymlinkCheck filePath true ;;
  emit (EvFs (FsUnlink validatedPath)).

Definition copyFile (src dest : string) (mode : option nat) : M unit :=
  validatedSrc <- validatePathWithSymlinkCheck src true ;;
  validatedDest <- validatePathWithSymlinkCheck dest false ;;
  emit (EvFs (FsCopyFile validatedSrc validatedDest mode)).

Definition appendFile (filePath data : string) (encoding : option string)
    : M unit :=
  validatedPath <- validatePathWithSymlinkCheck filePath false ;;
  emit (EvFs (FsAppendFile validatedPath data encoding)).

Definition rename (oldPath newPath : string) : M unit :=
  validatedOldPath <- validatePathWithSymlinkCheck oldPath true ;;
  validatedNewPath <- validatePathWithSymlinkCheck newPath false ;;
  emit (EvFs (FsRename validatedOldPath validatedNewPath)).

Definition lstat (filePath : string) : M unit :=
  validatedPath <- validatePath filePath ;;
  emit (EvFs (FsLstat validatedPath)).

End WithPolicy.
End SecureFs.

(** *** The adapter's operations as data

    An [Invocation] is one call of an adapter operation with its
    arguments; [run] dispatches it to the operation. *)

Inductive Invocation :=
| Access (filePath : string) (mode : option nat)
| ReadFile (filePath : string) (encoding : option string)
| WriteFile (filePath data : string) (encoding : option string)
| Mkdir (dirPath : string) (options : option MkdirOptions)
| Readdir (dirPath : string) (options : option ReaddirOptions)
| Stat (filePath : string)
| Rm (filePath : string) (options : option RmOptions)
| Unlink (filePath : string)
| CopyFile (src dest : string) (mode : option nat)
| AppendFile (filePath data : string) (encoding : option string)
| Rename (oldPath newPath : string)
| Lstat (filePath : string).

Definition run (proc : Process) (st : PolicyState) (fs : FileSystem)
    (i : Invocation) : M unit :=
  match i with
  | Access p mode => SecureFs.access proc st fs p mode
  | ReadFile p encoding => SecureFs.readFile proc st fs p encoding
  | WriteFile p data encoding => SecureFs.writeFile proc st fs p data encoding
  | Mkdir p options => SecureFs.mkdir proc st fs p options
  | Readdir p options => SecureFs.readdir proc st fs p options
  | Stat p => SecureFs.stat proc st fs p
  | Rm p options => SecureFs.rm proc st fs p options
  | Unlink p => SecureFs.unlink proc st fs p
  | CopyFile src dest mode => SecureFs.copyFile proc st fs src dest mode
  | AppendFile p data encoding =>
      SecureFs.appendFile proc st fs p data encoding
  | Rename oldPath newPath => SecureFs.rename proc st fs oldPath newPath
  | Lstat p => SecureFs.lstat proc st p
  end.

(** The path arguments of an invocation, in the order of the signature. *)
Definition pathArguments (i : Invocation) : list string :=
  match i with
  | Access p _ | ReadFile p _ | WriteFile p _ _ | Mkdir p _ | Readdir p _
  | Stat p | Rm p _ | Unlink p | AppendFile p _ _ | Lstat p => [p]
  | CopyFile a b _ | Rename a b => [a; b]
  end.

(** The [fs/promises] call an operation makes when its path arguments are
    already the paths to use. *)
Definition callOf (i : Invocation) : FsCall :=
  match i with
  | Access p mode => FsAccess p mode
  | ReadFile p (Some e) =>
      if JsString.truthy e then FsReadFile p (Some e) else FsReadFile p None
  | ReadFile p None => FsReadFile p None
  | WriteFile p data encoding => FsWriteFile p data encoding
  | Mkdir p options => FsMkdir p options
  | Readdir p (Some {| withFileTypes := Some true |}) => FsReaddir p true
  | Readdir p _ => FsReaddir p false
  | Stat p => FsStat p
  | Rm p options => FsRm p options
  | Unlink p => FsUnlink p
  | CopyFile src dest mode => FsCopyFile src dest mode
  | AppendFile p data encoding => FsAppendFile p data encoding
  | Rename oldPath newPath => FsRename oldPath newPath
  | Lstat p => FsLstat p
  end.

(** The invocation with its path arguments replaced. *)
Definition withPaths (i : Invocation) (paths : list string) : Invocation :=
  match i, paths with
  | Access _ mode, [p] => Access p mode
  | ReadFile _ encoding, [p] => ReadFile p encoding
  | WriteFile _ data encoding, [p] => WriteFile p data encoding
  | Mkdir _ options, [p] => Mkdir p options
  | Readdir _ options, [p] => Readdir p options
  | Stat _, [p] => Stat p
  | Rm _ options, [p] => Rm p options
  | Unlink _, [p] => Unlink p
  | CopyFile _ _ mode, [a; b] => CopyFile a b mode
  | AppendFile _ data encoding, [p] => AppendFile p data encoding
  | Rename _ _, [a; b] => Rename a b
  | Lstat _, [p] => Lstat p
  | _, _ => i
  end.

(** The paths a delegated call is made with. *)
Definition callPaths (c : FsCall) : list string :=
  match c with
  | FsAccess p _ | FsReadFile p _ | FsWriteFile p _ _ | FsMkdir p _
  | FsReaddir p _ | FsStat p | FsRm p _ | FsUnlink p | FsAppendFile p _ _
  | FsLstat p => [p]
  | FsCopyFile a b _ | FsRename a b => [a; b]
  end.

(** The delegated calls among the events of a run. *)
Definition fsCalls (t : list Event) : list FsCall :=
  flat_map (fun ev => match ev with EvFs c => [c] | _ => [] end) t.

(** A computation that delegates nothing to [fs/promises]. *)
Definition quiet {A} (m : M A) : Prop := fsCalls (trace m) = [].

(** *** Validator selection, as the specification words it *)

Inductive Validator :=
| SymlinkCheck (requireExists : bool)
| Basic.

Inductive OperationClass :=
| ReadsExisting
| MayCreate
| SourceAndDestination
| InspectsLink.

(** Read, list, stat, remove, unlink and access-check work on an existing
    entry; write, create-directory and append may create one; copy and
    rename take a source and a destination; [lstat] inspects a link. *)
Definition classOf (i : Invocation) : OperationClass :=
  match i with
  | Access _ _ | ReadFile _ _ | Readdir _ _ | Stat _ | Rm _ _ | Unlink _ =>
      ReadsExisting
  | WriteFile _ _ _ | Mkdir _ _ | AppendFile _ _ _ => MayCreate
  | CopyFile _ _ _ | Rename _ _ => SourceAndDestination
  | Lstat _ => InspectsLink
  end.

(** One validator for each path argument. *)
Definition validatorsFor (c : OperationClass) : list Validator :=
  match c with
  | ReadsExisting => [SymlinkCheck true]
  | MayCreate => [SymlinkCheck false]
  | SourceAndDestination => [SymlinkCheck true; SymlinkCheck false]
  | InspectsLink => [Basic]
  end.

Definition runValidator (proc : Process) (st : PolicyState)
    (fs : FileSystem) (v : Validator) (p : string) : M string :=
  match v with
  | SymlinkCheck requireExists =>
      Security.validatePathWithSymlinkCheck proc st fs p requireExists
  | Basic => lift (Security.validatePath proc st p)
  end.

(** Validate the arguments from left to right, stopping at the first
    failure. *)
Fixpoint validateAll (proc : Process) (st : PolicyState) (fs : FileSystem)
    (args : list (Validator * string)) : M (list string) :=
  match args with
  | [] => ret []
  | (v, p) :: rest =>
      validated <- runValidator proc st fs v p ;;
      others <- validateAll proc st fs rest ;;
      ret (validated :: others)
  end.

(** Validate by class, then delegate with the validated paths. *)
Definition runAsSpecified (proc : Process) (st : PolicyState)
    (fs : FileSystem) (i : Invocation) : M unit :=
  validated <- validateAll proc st fs
                 (combine (validatorsFor (classOf i)) (pathArguments i)) ;;
  emit (EvFs (callOf (withPaths i validated))).

(** ** The path-parameter middleware ([validate-paths.ts]) *)

Module ValidatePaths.

Local Unset Elimination Schemes.

(** The values a request body can hold. *)
Inductive JsValue :=
| VUndefined
| VNull
| VBoolean (b : bool)
| VNumber (n : nat)
| VString (s : string)
| VArray (items : list JsValue)
| VObject (fields : list (string * JsValue)).

Local Set Elimination Schemes.

(** [typeof value] *)
Definition typeof (value : JsValue) : string :=
  match value with
  | VUndefined => "undefined"
  | VBoolean _ => "boolean"
  | VNumber _ => "number"
  | VString _ => "string"
  | VNull | VArray _ | VObject _ => "object"
  end.

(** [value !== undefined && value !== null] *)
Definition present (value : JsValue) : bool :=
  match value with
  | VUndefined | VNull => false
  | _ => true
  end.

(** [req.body[name]]: a property the body lacks reads as [undefined]. *)
Definition property (body : gmap string JsValue) (name : string)
    : JsValue :=
  default VUndefined (body !! name).

(** [assertValidPathString(value, paramName)] *)
Definition assertValidPathString (value : JsValue) (paramName : string)
    : result string :=
  match value with
  | VString s => Ok s
  | _ => Throw (InvalidPathTypeError paramName "string" (typeof value))
  end.

(** What the middleware does with the request. *)
Inductive Outcome :=
| Next
| Respond (status : nat) (error : string)
| Rethrow (e : Error).

Section WithPolicy.

Variable proc : Process.
Variable st : PolicyState.

(** The two statements every kind of parameter ends in. *)
Definition checkValue (value : JsValue) (paramName : string)
    : result unit :=
  andThen (assertValidPathString value paramName) (fun s =>
  andThen (Security.validatePath proc st s) (fun _ => Ok tt)).

(** [for (let i = 0; i < values.length; i++) ...], from index [i]. *)
Fixpoint checkItems (actualName : string) (i : nat)
    (values : list JsValue) : result unit :=
  match values with
  | [] => Ok tt
  | value :: rest =>
      andThen
        (checkValue value
           (actualName +:+ "[" +:+ pretty i +:+ "]"))
        (fun _ => checkItems actualName (S i) rest)
  end.

(** The body of the loop over [paramNames]. *)
Definition checkParam (body : gmap string JsValue) (paramName : string)
    : result unit :=
  if JsString.endsWith paramName "?" then
    let actualName := JsString.dropEnd 1 paramName in
    let value := property body actualName in
    if present value then checkValue value actualName else Ok tt
  else if JsString.endsWith paramName "[]" then
    let actualName := JsString.dropEnd 2 paramName in
    let values := property body actualName in
    match values with
    | VUndefined | VNull => Ok tt
    | VArray items => checkItems actualName 0 items
    | _ => Throw (InvalidPathTypeError actualName "array"
                    (typeof values))
    end
  else
    let value := property body paramName in
    if present value then checkValue value paramName else Ok tt.

Fixpoint checkParams (body : gmap string JsValue)
    (paramNames : list string) : result unit :=
  match paramNames with
  | [] => Ok tt
  | paramName :: rest =>
      andThen (checkParam body paramName)
        (fun _ => checkParams body rest)
  end.

(** [validatePathParams(...paramNames)(req, res, next)] *)
Definition validatePathParams (paramNames : list string)
    (body : gmap string JsValue) : Outcome :=
  match checkParams body paramNames with
  | Ok _ => Next
  | Throw (PathNotAllowedError p) =>
      Respond 403 (errorMessage (PathNotAllowedError p))
  | Throw (InvalidPathTypeError n e a) =>
      Respond 400 (errorMessage (InvalidPathTypeError n e a))
  | Throw error => Rethrow error
  end.

End WithPolicy.

End ValidatePaths.

(** *** New paths, as the specification words it

    Walk up to the nearest existing ancestor directory, resolve its real
    path, validate that, and rebuild the path below the real ancestor. *)

Section NewPathSpec.

Variable proc : Process.
Variable st : PolicyState.
Variable fs : FileSystem.

(** From [dir] upwards, the first directory whose real path resolves,
    with the names that lead from it down to the new entry. *)
Fixpoint nearestExistingAncestor (fuel : nat) (dir : string)
    (below : list string) : option (string * list string) :=
  match realpathSync fs dir with
  | inr real => Some (real, below)
  | inl _ =>
      match fuel with
      | O => None
      | S fuel' =>
          nearestExistingAncestor fuel' (PosixPath.dirname dir)
            (PosixPath.basename dir :: below)
      end
  end.

(** The result the specification describes for a path that does not
    exist; a containment failure is a [PathNotAllowedError] with any
    message. *)
Definition createsUnderNearestAncestor (filePath : string)
    (o : result string) : Prop :=
  let resolvedPath := Security.resolve proc filePath in
  match nearestExistingAncestor (String.length resolvedPath)
          (PosixPath.dirname resolvedPath)
          [PosixPath.basename resolvedPath] with
  | Some (real, below) =>
      if Security.isPathAllowed proc st real
      then o = Ok (fold_left PosixPath.join below real)
      else exists message, o = Throw (PathNotAllowedError message)
  | None => True
  end.

End NewPathSpec.

(** ** A concrete setting

    The end-to-end scenario of the specification: root [/allowed], data
    directory [/data], strict mode; a file system on which [/allowed/link]
    is a symbolic link to [/etc]. *)

Module Demo.

Definition proc : Process :=
  {| cwd := "/home/user";
     env := list_to_map [("ALLOWED_ROOT_DIRECTORY", "/allowed");
                         ("DATA_DIR", "/data")] |}.

(** The module's variables after [initAllowedPaths()]. *)
Definition st : PolicyState :=
  match outcome (Security.initAllowedPaths proc initialState) with
  | Ok s => s
  | Throw _ => initialState
  end.

Definition entries : gmap string MemFs.Node :=
  list_to_map [("/allowed", MemFs.Dir);
               ("/allowed/docs", MemFs.Dir);
               ("/allowed/docs/a.txt", MemFs.File);
               ("/allowed/link", MemFs.Symlink "/etc");
               ("/data", MemFs.Dir);
               ("/etc", MemFs.Dir);
               ("/etc/passwd", MemFs.File)].

Definition fs : FileSystem := MemFs.fileSystem entries.

End Demo.

(** ** The accessors of the policy engine *)

(** [getAllowedRootDirectory()] *)
Definition getAllowedRootDirectory (st : PolicyState) : option string :=
  allowedRootDirectory st.

(** [getDataDirectory()] *)
Definition getDataDirectory (st : PolicyState) : option string :=
  dataDirectory st.

(** [getAllowedPaths()]: the root, then the data directory, each when it
    is truthy. *)
Definition getAllowedPaths (st : PolicyState) : list string :=
  match Security.configured (allowedRootDirectory st) with
  | Some root => [root]
  | None => []
  end ++
  match Security.configured (dataDirectory st) with
  | Some data => [data]
  | None => []
  end.

(** Every configured boundary is the resolved form of some path, as the
    values [initAllowedPaths] stores are. *)
Definition boundariesResolved (proc : Process) (st : PolicyState) : Prop :=
  forall d, Security.configured (allowedRootDirectory st) = Some d \/
            Security.configured (dataDirectory st) = Some d ->
            exists d0, d = Security.resolve proc d0.

(** A file system with a dangling symbolic link inside the root. *)
Module DanglingDemo.

Definition entries : gmap string MemFs.Node :=
  list_to_map [("/allowed", MemFs.Dir);
               ("/allowed/out", MemFs.Symlink "/outside/target");
               ("/allowed/secret", MemFs.Dir)].

Definition fs : FileSystem := MemFs.fileSystem entries.

(** The same, with no read permission on [/allowed/secret]. *)
Definition guarded : FileSystem :=
  {| lstatSync := fun p =>
       if String.eqb p "/allowed/secret/file" then inl EACCES
       else lstatSync fs p;
     realpathSync := fun p =>
       if String.eqb p "/allowed/secret/file" then inl EACCES
       else realpathSync fs p |}.

End DanglingDemo.

(** ** The rate limiter ([lib/rate-limiter.ts])

    Times are the readings of [Date.now()], in milliseconds; each method
    takes the reading it makes.  The [attempts] map is passed in and
    returned. *)

Module RateLimiter.

Record AttemptRecord := {
  count : Z;
  firstAttempt : Z;
  blockedUntil : option Z
}.

Record RateLimiterConfig := {
  maxAttempts : Z;
  windowMs : Z;
  blockDurationMs : Z
}.

Definition DEFAULT_CONFIG : RateLimiterConfig :=
  {| maxAttempts := 5;
     windowMs := 15 * 60 * 1000;
     blockDurationMs := 15 * 60 * 1000 |}.

(** [record.blockedUntil] as a condition: [null] and [0] are falsy. *)
Definition blockSet (blockedUntil : option Z) : option Z :=
  match blockedUntil with
  | Some b => if (b =? 0)%Z then None else Some b
  | None => None
  end.

(** [isBlocked(key)] *)
Definition isBlocked (now : Z) (key : string)
    (attempts : gmap string AttemptRecord)
    : bool * gmap string AttemptRecord :=
  match attempts !! key with
  | None => (false, attempts)
  | Some record =>
      match blockSet (blockedUntil record) with
      | Some b =>
          if (now <? b)%Z then (true, attempts)
          else (false, delete key attempts)
      | None => (false, attempts)
      end
  end.

(** [getBlockTimeRemaining(key)] *)
Definition getBlockTimeRemaining (now : Z) (key : string)
    (attempts : gmap string AttemptRecord) : Z :=
  match attempts !! key with
  | None => 0
  | Some record =>
      match blockSet (blockedUntil record) with
      | None => 0
      | Some b =>
          let remaining := (b - now)%Z in
          if (0 <? remaining)%Z then remaining else 0%Z
      end
  end.

Section WithConfig.

Variable config : RateLimiterConfig.

Definition firstFailure (now : Z) : AttemptRecord :=
  {| count := 1; firstAttempt := now; blockedUntil := None |}.

(** [recordFailure(key)]: whether the key is now blocked, and the map. *)
Definition recordFailure (now : Z) (key : string)
    (attempts : gmap string AttemptRecord)
    : bool * gmap string AttemptRecord :=
  match attempts !! key with
  | None => (false, <[key := firstFailure now]> attempts)
  | Some record =>
      if (windowMs config <? now - firstAttempt record)%Z
      then (false, <[key := firstFailure now]> attempts)
      else
        let count' := (count record + 1)%Z in
        if (maxAttempts config <=? count')%Z
        then (true,
              <[key := {| count := count';
                          firstAttempt := firstAttempt record;
                          blockedUntil :=
                            Some (now + blockDurationMs config)%Z |}]>
                attempts)
        else (false,
              <[key := {| count := count';
                          firstAttempt := firstAttempt record;
                          blockedUntil := blockedUntil record |}]>
                attempts)
  end.

(** [reset(key)] *)
Definition reset (key : string) (attempts : gmap string AttemptRecord)
    : gmap string AttemptRecord :=
  delete key attempts.

(** [getAttemptsRemaining(key)] *)
Definition getAttemptsRemaining (now : Z) (key : string)
    (attempts : gmap string AttemptRecord) : Z :=
  match attempts !! key with
  | None => maxAttempts config
  | Some record =>
      if (windowMs config <? now - firstAttempt record)%Z
      then maxAttempts config
      else Z.max 0 (maxAttempts config - count record)
  end.

(** The test [cleanup()] makes on each record. *)
Definition expired (now : Z) (record : AttemptRecord) : bool :=
  match blockSet (blockedUntil record) with
  | Some b => negb (now <? b)%Z
  | None => (windowMs config <? now - firstAttempt record)%Z
  end.

(** [cleanup()]: the keys marked are deleted after the traversal. *)
Definition cleanup (now : Z) (attempts : gmap string AttemptRecord)
    : gmap string AttemptRecord :=
  filter (fun kr => expired now (snd kr) = false) attempts.

(** Failures of one key, one after the other, at the given times. *)
Fixpoint recordFailures (times : list Z) (key : string)
    (attempts : gmap string AttemptRecord)
    : list bool * gmap string AttemptRecord :=
  match times with
  | [] => ([], attempts)
  | now :: rest =>
      let '(blocked, attempts') := recordFailure now key attempts in
      let '(others, attempts'') := recordFailures rest key attempts' in
      (blocked :: others, attempts'')
  end.

End WithConfig.

(** The records [recordFailure] builds count at least one failure, and a
    block is only set from the threshold on. *)
Definition wellFormed (config : RateLimiterConfig)
    (attempts : gmap string AttemptRecord) : Prop :=
  forall key record, attempts !! key = Some record ->
    (1 <= count record)%Z /\
    (forall b, blockedUntil record = Some b ->
               (maxAttempts config <= count record)%Z).

End RateLimiter.

(** ** The API-key middleware ([lib/auth.ts]) and the limiter's view of a
    request *)

Module Auth.

(** A header that Node gives as one string or as a list of strings. *)
Inductive HeaderValue :=
| HeaderString (value : string)
| HeaderList (values : list string).

(** What the middleware reads of a request:
    [req.headers['x-forwarded-for']], [req.headers['x-api-key']] and
    [req.socket.remoteAddress]. *)
Record Request := {
  xForwardedFor : option HeaderValue;
  xApiKey : option string;
  remoteAddress : option string
}.

(** [s.split(',')[0]] *)
Fixpoint beforeComma (s : string) : string :=
  match s with
  | EmptyString => EmptyString
  | String c s' =>
      if Ascii.eqb c "," then EmptyString else String c (beforeComma s')
  end.

(** What the middleware does: [next()], or a response with its status,
    its [Retry-After] header, and the [error] and [retryAfter] fields of
    its body. *)
Inductive Response :=
| CallNext
| Reply (status : nat) (retryAfterHeader : option string) (error : string)
    (retryAfter : option Z).

(** [Math.ceil(retryAfterMs / 1000)] *)
Definition ceilSeconds (retryAfterMs : Z) : Z :=
  (- ((- retryAfterMs) / 1000))%Z.

Definition tooManyAttempts : string :=
  "Too many failed authentication attempts. Please try again later.".

(** The 429 response both middlewares build. *)
Definition rateLimited (now : Z) (clientIp : string)
    (attempts : gmap string RateLimiter.AttemptRecord) : Response :=
  let retryAfterMs :=
    RateLimiter.getBlockTimeRemaining now clientIp attempts in
  let retryAfterSeconds := ceilSeconds retryAfterMs in
  Reply 429 (Some (pretty retryAfterSeconds)) tooManyAttempts
    (Some retryAfterSeconds).

(** [crypto.timingSafeEqual] on two buffers of the same length. *)
Definition timingSafeEqual (a b : string) : bool := String.eqb a b.

(** [secureCompare(a, b)] *)
Definition secureCompare (a b : string) : bool :=
  if negb (Nat.eqb (String.length a) (String.length b))
  then let _ := timingSafeEqual a a in false
  else timingSafeEqual a b.

(** [!!API_KEY] with [API_KEY = process.env.AUTOMAKER_API_KEY]. *)
Definition isAuthEnabled (proc : Process) : bool :=
  match env proc !! "AUTOMAKER_API_KEY" with
  | Some key => JsString.truthy key
  | None => false
  end.

(** [getAuthStatus()]: [enabled] and [method]. *)
Definition getAuthStatus (proc : Process) : bool * string :=
  (isAuthEnabled proc, if isAuthEnabled proc then "api_key" else "none").

Section WithTrim.

(** [String.prototype.trim]. *)
Variable trim : string -> string.

(** [RateLimiter.getClientIp(req)]; [None] when [forwarded[0].trim()]
    is called on [undefined] and throws a [TypeError]. *)
Definition getClientIp (req : Request) : option string :=
  let fromSocket :=
    match remoteAddress req with
    | Some address =>
        if JsString.truthy address then address else "unknown"
    | None => "unknown"
    end in
  match xForwardedFor req with
  | Some (HeaderString forwarded) =>
      if JsString.truthy forwarded
      then Some (trim (beforeComma forwarded))
      else Some fromSocket
  | Some (HeaderList []) => None
  | Some (HeaderList (forwardedIp :: _)) => Some (trim forwardedIp)
  | None => Some fromSocket
  end.

(** [createRateLimitMiddleware(rateLimiter)(req, res, next)]; [now1] and
    [now2] are the two readings of the clock. *)
Definition createRateLimitMiddleware (now1 now2 : Z) (req : Request)
    (attempts : gmap string RateLimiter.AttemptRecord)
    : option (Response * gmap string RateLimiter.AttemptRecord) :=
  match getClientIp req with
  | None => None
  | Some clientIp =>
      let '(blocked, attempts1) :=
        RateLimiter.isBlocked now1 clientIp attempts in
      if blocked
      then Some (rateLimited now2 clientIp attempts1, attempts1)
      else Some (CallNext, attempts1)
  end.

(** [authMiddleware(req, res, next)] on the shared [apiKeyRateLimiter],
    which has the default configuration. *)
Definition authMiddleware (proc : Process) (now1 now2 : Z) (req : Request)
    (attempts : gmap string RateLimiter.AttemptRecord)
    : option (Response * gmap string RateLimiter.AttemptRecord) :=
  match Security.envTruthy proc "AUTOMAKER_API_KEY" with
  | None => Some (CallNext, attempts)
  | Some API_KEY =>
      match getClientIp req with
      | None => None
      | Some clientIp =>
          let '(blocked, attempts1) :=
            RateLimiter.isBlocked now1 clientIp attempts in
          if blocked
          then Some (rateLimited now2 clientIp attempts1, attempts1)
          else
            match xApiKey req with
            | Some providedKey =>
                if negb (JsString.truthy providedKey)
                then Some (Reply 401 None
                             "Authentication required. Provide X-API-Key header."
                             None, attempts1)
                else if negb (secureCompare providedKey API_KEY)
                then
                  let '(_, attempts2) :=
                    RateLimiter.recordFailure RateLimiter.DEFAULT_CONFIG
                      now2 clientIp attempts1 in
                  Some (Reply 403 None "Invalid API key." None, attempts2)
                else Some (CallNext, RateLimiter.reset clientIp attempts1)
            | None =>
                Some (Reply 401 None
                        "Authentication required. Provide X-API-Key header."
                        None, attempts1)
            end
      end
  end.

(** Requests of one client with a wrong key, one after the other; each
    comes with its two clock readings. *)
Fixpoint authAttempts (proc : Process) (requests : list (Z * Z * Request))
    (attempts : gmap string RateLimiter.AttemptRecord)
    : option (list Response * gmap string RateLimiter.AttemptRecord) :=
  match requests with
  | [] => Some ([], attempts)
  | (now1, now2, req) :: rest =>
      match authMiddleware proc now1 now2 req attempts with
      | None => None
      | Some (response, attempts') =>
          match authAttempts proc rest attempts' with
          | None => None
          | Some (responses, attempts'') =>
              Some (response :: responses, attempts'')
          end
      end
  end.

End WithTrim.

End Auth.

(** A value of the body that the middleware accepts as a path. *)
Definition isAllowedPathValue (proc : Process) (st : PolicyState)
    (value : ValidatePaths.JsValue) : bool :=
  match value with
  | ValidatePaths.VString s =>
      Security.isPathAllowed proc st (Security.resolve proc s)
  | _ => false
  end.

(** The result of [validatePathWithSymlinkCheck] when the entry is
    missing and [requireExists] is false: the [catch] block's inner
    [try]. *)
Definition newPathOutcome (proc : Process) (st : PolicyState)
    (fs : FileSystem) (filePath : string) : result string :=
  let resolvedPath := Security.resolve proc filePath in
  match realpathSync fs (PosixPath.dirname resolvedPath) with
  | inr realParent =>
      if Security.isPathAllowed proc st realParent
      then Ok (PosixPath.join realParent (PosixPath.basename resolvedPath))
      else Throw (PathNotAllowedError
                    (filePath +:+ " (parent resolves to " +:+ realParent
                     +:+ ")"))
  | inl ENOENT => Security.validatePath proc st filePath
  | inl code => Throw (ErrnoException code)
  end.

(** The console lines among the events of a run. *)
Definition consoleLines (t : list Event) : list (ConsoleLevel * string) :=
  flat_map (fun ev => match ev with
                      | EvConsole level message => [(level, message)]
                      | _ => []
                      end) t.

(** A request of the client [ip] that carries a key other than the
    configured one. *)
Definition wrongKeyRequest (trim : string -> string) (key ip : string)
    (request : Z * Z * Auth.Request) : Prop :=
  Auth.getClientIp trim (snd request) = Some ip /\
  exists provided, Auth.xApiKey (snd request) = Some provided /\
                   provided <> "" /\ provided <> key.

(** The second clock reading of a request, the one [recordFailure]
    makes. *)
Definition failureTime (request : Z * Z * Auth.Request) : Z :=
  snd (fst request).

Definition invalidApiKey : Auth.Response :=
  Auth.Reply 403 None "Invalid API key." None.

(** A server with an API key, and requests of one client. *)
Module AuthDemo.

Definition proc : Process :=
  {| cwd := "/srv"; env := {[ "AUTOMAKER_API_KEY" := "correct-key" ]} |}.

Definition isSpace (c : ascii) : bool :=
  Ascii.eqb c " " || Ascii.eqb c "009".

(** The part of [trim] that concerns spaces and tabs. *)
Definition trim (s : string) : string :=
  string_of_list_ascii
    (rev (PosixPath.dropWhile isSpace
            (rev (PosixPath.dropWhile isSpace (list_ascii_of_string s))))).

Definition request (key : string) : Auth.Request :=
  {| Auth.xForwardedFor :=
       Some (Auth.HeaderString "192.168.1.100, 10.0.0.1");
     Auth.xApiKey := Some key;
     Auth.remoteAddress := Some "127.0.0.1" |}.

End AuthDemo.

(** * Properties *)

(** ** The cases of the test suite and of the specification *)

Section TestSuite.

Let proc : Process := {| cwd := "/home/user/project"; env := ∅ |}.

Let rooted (root : string) : PolicyState :=
  {| securityMode := Strict;
     allowedRootDirectory := Some root;
     dataDirectory := None |}.

Example traversal_is_blocked :
  Security.isPathAllowed proc (rooted "/allowed") "/allowed/../etc/passwd"
  = false
  /\ Security.isPathAllowed proc (rooted "/allowed")
       "/allowed/subdir/../../etc/passwd" = false
  /\ Security.isPathAllowed proc (rooted "/allowed/deep/nested")
       "/allowed/deep/nested/../../../../root" = false
  /\ Security.isPathAllowed proc (rooted "/allowed/subdir")
       "/allowed/subdir/.." = false
  /\ Security.isPathAllowed proc (rooted "/home/user/projects")
       "/home/user/projects/app/../../../etc/shadow" = false.
Proof. repeat split; reflexivity. Qed.

Example inside_is_allowed :
  Security.isPathAllowed proc (rooted "/allowed") "/allowed/file.txt"
  = true
  /\ Security.isPathAllowed proc (rooted "/allowed") "/allowed/foo/..bar"
     = true
  /\ Security.isPathAllowed proc (rooted "/allowed") "/allowed/foo/../bar"
     = true
  /\ Security.isPathAllowed proc (rooted "/home/user/projects")
       "/home/user/projects/app/../lib/file.ts" = true
  /\ Security.isPathAllowed proc (rooted "/home/user/project")
       "./file.txt" = true.
Proof. repeat split; reflexivity. Qed.

Example boundary_cases :
  Security.isPathAllowed proc (rooted "/allowed") "/allowed" = true
  /\ Security.isPathAllowed proc (rooted "/allowed") "/allowed/" = true
  /\ Security.isPathAllowed proc (rooted "/allowed") "/" = false
  /\ Security.isPathAllowed proc (rooted "/allowed") "/allowed2" = false
  /\ Security.isPathAllowed proc (rooted "/allowed") "/allowedextra"
     = false.
Proof. repeat split; reflexivity. Qed.

Example validatePath_cases_of_the_suite :
  Security.validatePath proc (rooted "/allowed") "/allowed/file.txt"
  = Ok "/allowed/file.txt"
  /\ Security.validatePath proc (rooted "/allowed") "/not-allowed/file.txt"
     = Throw (PathNotAllowedError "/not-allowed/file.txt")
  /\ Security.validatePath proc (rooted "/home/user/project") "./file.txt"
     = Ok "/home/user/project/file.txt"
  /\ Security.validatePath proc initialState "/any/path"
     = Throw (PathNotAllowedError "/any/path").
Proof. repeat split; reflexivity. Qed.

End TestSuite.

(** The end-to-end scenario: root [/allowed], data [/data], strict mode. *)
Example end_to_end_scenario :
  run Demo.proc Demo.st Demo.fs (WriteFile "/allowed/a.txt" "x" None)
  = ([EvLstatSync "/allowed/a.txt"; EvRealpathSync "/allowed";
      EvFs (FsWriteFile "/allowed/a.txt" "x" None)], Ok tt)
  /\ run Demo.proc Demo.st Demo.fs (WriteFile "/etc/a.txt" "x" None)
     = ([EvLstatSync "/etc/a.txt"; EvRealpathSync "/etc"],
        Throw (PathNotAllowedError "/etc/a.txt (parent resolves to /etc)"))
  /\ run Demo.proc Demo.st Demo.fs
       (WriteFile "/data/settings.json" "x" None)
     = ([EvLstatSync "/data/settings.json"; EvRealpathSync "/data";
         EvFs (FsWriteFile "/data/settings.json" "x" None)], Ok tt).
Proof. vm_compute. repeat split; reflexivity. Qed.

(** A symbolic link inside the root that points outside it is refused by
    the symlink-aware validator and accepted by the plain one. *)
Example symlink_escape :
  outcome (Security.validatePathWithSymlinkCheck Demo.proc Demo.st Demo.fs
             "/allowed/link/passwd" true)
  = Throw (PathNotAllowedError
             "/allowed/link/passwd (resolves to /etc/passwd via symlink)")
  /\ Security.validatePath Demo.proc Demo.st "/allowed/link/passwd"
     = Ok "/allowed/link/passwd".
Proof. vm_compute. split; reflexivity. Qed.

(** ** The decision of [isPathAllowed] *)

Lemma configured_Some (dir : option string) (d : string) :
  Security.configured dir = Some d <-> dir = Some d /\ d <> "".
Proof.
  unfold Security.configured. destruct dir as [[|c s]|]; simpl; split.
  all: try (intros [H1 H2]); try intros H; try discriminate.
  - inversion H1; subst. congruence.
  - inversion H; subst. split; [reflexivity | discriminate].
  - inversion H1; subst; reflexivity.
Qed.

Lemma unset_iff (dir : option string) :
  unset dir <-> dir = None \/ dir = Some "".
Proof.
  unfold unset, Security.configured.
  destruct dir as [[|c s]|]; simpl; split; intros H; auto;
    try discriminate; destruct H; discriminate.
Qed.

Lemma isPathAllowed_cases (proc : Process) (st : PolicyState) (p : string) :
  Security.isPathAllowed proc st p = true <->
  containedIn proc (Security.resolve proc p) (dataDirectory st) \/
  containedIn proc (Security.resolve proc p) (allowedRootDirectory st) \/
  (unset (allowedRootDirectory st) /\ securityMode st = Permissive).
Proof.
  unfold Security.isPathAllowed, containedIn, unset.
  destruct (Security.configured (dataDirectory st)) as [d|] eqn:Hd;
    [destruct (Security.isPathWithinDirectory proc _ d) eqn:Hwd |].
  - split; [intros _; left; eauto | reflexivity].
  - destruct (Security.configured (allowedRootDirectory st)) as [r|] eqn:Hr.
    + destruct (Security.isPathWithinDirectory proc _ r) eqn:Hwr; split;
        try reflexivity; try discriminate.
      * intros _. right; left; eauto.
      * intros [(d' & E & W) | [(r' & E & W) | [E _]]]; congruence.
    + destruct (securityMode st); split; try reflexivity; try discriminate.
      * intros [(d' & E & W) | [(r' & E & W) | [_ E]]]; congruence.
      * intros _. right; right; auto.
  - destruct (Security.configured (allowedRootDirectory st)) as [r|] eqn:Hr.
    + destruct (Security.isPathWithinDirectory proc _ r) eqn:Hwr; split;
        try reflexivity; try discriminate.
      * intros _. right; left; eauto.
      * intros [(d' & E & W) | [(r' & E & W) | [E _]]]; congruence.
    + destruct (securityMode st); split; try reflexivity; try discriminate.
      * intros [(d' & E & W) | [(r' & E & W) | [_ E]]]; congruence.
      * intros _. right; right; auto.
Qed.


(** ** Facts about the path functions *)

Module PosixPathFacts.
Import PosixPath.

Lemma split_not_nil (s : string) : split s <> [].
Proof.
  induction s as [|c s IH]; simpl; [discriminate|].
  destruct (isSep c); [discriminate|].
  destruct (split s); [contradiction | discriminate].
Qed.

Lemma split_noSep (s : string) : Forall (fun x => noSep x = true) (split s).
Proof.
  induction s as [|c s IH]; simpl.
  - repeat constructor.
  - destruct (isSep c) eqn:Hc.
    + constructor; [reflexivity | exact IH].
    + destruct (split s) as [|x xs] eqn:E.
      * repeat constructor. simpl. rewrite Hc. reflexivity.
      * inversion IH; subst. constructor; [|assumption].
        simpl. rewrite Hc. assumption.
Qed.

Lemma split_single (x : string) : noSep x = true -> split x = [x].
Proof.
  induction x as [|c x IH]; simpl; [reflexivity|].
  intros H. apply andb_prop in H as [Hc Hx].
  apply negb_true_iff in Hc. rewrite Hc, (IH Hx). reflexivity.
Qed.

Lemma split_app_sep (x y : string) :
  noSep x = true -> split (x +:+ "/" +:+ y) = x :: split y.
Proof.
  induction x as [|c x IH]; simpl; [reflexivity|].
  intros H. apply andb_prop in H as [Hc Hx].
  apply negb_true_iff in Hc. rewrite Hc, (IH Hx). reflexivity.
Qed.

Lemma split_joinSegs (segs : list string) :
  segs <> [] -> Forall (fun x => noSep x = true) segs ->
  split (joinSegs segs) = segs.
Proof.
  induction segs as [|x [|y rest] IH]; intros Hne Hall.
  - contradiction.
  - simpl. inversion Hall; subst. apply split_single; assumption.
  - inversion Hall; subst.
    change (joinSegs (x :: y :: rest))
      with (x +:+ "/" +:+ joinSegs (y :: rest)).
    rewrite split_app_sep by assumption.
    f_equal. apply IH; [discriminate | assumption].
Qed.

Lemma cleanSeg_noSep (s : string) : cleanSeg s = true -> noSep s = true.
Proof.
  unfold cleanSeg. intros H.
  apply andb_prop in H as [_ H]. exact H.
Qed.

Lemma normalizeStep_clean (allow : bool) (res : list string)
    (seg : string) :
  cleanSeg seg = true -> normalizeStep allow res seg = seg :: res.
Proof.
  unfold cleanSeg, normalizeStep. intros H.
  apply andb_prop in H as [H _].
  apply andb_prop in H as [H H3].
  apply andb_prop in H as [H1 H2].
  apply negb_true_iff in H1, H2, H3.
  rewrite H1, H2, H3. reflexivity.
Qed.

Lemma fold_normalizeStep_clean (allow : bool) (segs acc : list string) :
  Forall (fun x => cleanSeg x = true) segs ->
  fold_left (normalizeStep allow) segs acc = rev segs ++ acc.
Proof.
  revert acc. induction segs as [|x segs IH]; intros acc Hall; simpl.
  - reflexivity.
  - inversion Hall; subst.
    rewrite normalizeStep_clean by assumption.
    rewrite IH by assumption.
    rewrite <- app_assoc. reflexivity.
Qed.

(** Normalising the text of clean segments gives them back. *)
Lemma normalizeString_joinSegs (segs : list string) :
  Forall (fun x => cleanSeg x = true) segs ->
  normalizeString false ("/" +:+ joinSegs segs) = segs.
Proof.
  intros Hall. unfold normalizeString.
  change (split ("/" +:+ joinSegs segs))
    with ("" :: split (joinSegs segs)).
  destruct segs as [|x rest].
  - reflexivity.
  - rewrite split_joinSegs.
    + change (fold_left (normalizeStep false) ("" :: x :: rest) [])
        with (fold_left (normalizeStep false) (x :: rest) []).
      rewrite fold_normalizeStep_clean by assumption.
      rewrite app_nil_r. apply rev_involutive.
    + discriminate.
    + eapply Forall_impl; [exact Hall|].
      intros a Ha. apply cleanSeg_noSep. exact Ha.
Qed.

Lemma normalizeStep_keeps_clean (res : list string) (seg : string) :
  noSep seg = true ->
  Forall (fun x => cleanSeg x = true) res ->
  Forall (fun x => cleanSeg x = true) (normalizeStep false res seg).
Proof.
  intros Hs Hres. unfold normalizeStep.
  destruct (String.eqb seg "") eqn:E1; [exact Hres|].
  destruct (String.eqb seg ".") eqn:E2; [exact Hres|].
  simpl. destruct (String.eqb seg "..") eqn:E3.
  - destruct res as [|top rest]; [constructor|].
    destruct (String.eqb top ".."); [exact Hres|].
    inversion Hres; assumption.
  - constructor; [|exact Hres].
    unfold cleanSeg. rewrite E1, E2, E3, Hs. reflexivity.
Qed.

Lemma fold_normalizeStep_keeps_clean (segs acc : list string) :
  Forall (fun x => noSep x = true) segs ->
  Forall (fun x => cleanSeg x = true) acc ->
  Forall (fun x => cleanSeg x = true)
    (fold_left (normalizeStep false) segs acc).
Proof.
  revert acc. induction segs as [|x segs IH]; intros acc Hs Hacc; simpl.
  - exact Hacc.
  - inversion Hs; subst. apply IH; [assumption|].
    apply normalizeStep_keeps_clean; assumption.
Qed.

(** The segments [normalizeString] keeps are clean. *)
Lemma normalizeString_clean (p : string) :
  Forall (fun x => cleanSeg x = true) (normalizeString false p).
Proof.
  unfold normalizeString. apply Forall_rev.
  apply fold_normalizeStep_keeps_clean; [apply split_noSep | constructor].
Qed.

(** [path.resolve] returns its own fixed points. *)
Lemma resolve_idempotent (cwd p : string) :
  resolve cwd (resolve cwd p) = resolve cwd p.
Proof.
  unfold resolve at 1.
  set (r := resolve cwd p).
  assert (Habs : isAbsolute r = true) by reflexivity.
  rewrite Habs. unfold r, resolve.
  rewrite normalizeString_joinSegs by apply normalizeString_clean.
  reflexivity.
Qed.

End PosixPathFacts.

(** ** [validatePath] *)

Lemma isPathAllowed_resolve (proc : Process) (st : PolicyState)
    (p : string) :
  Security.isPathAllowed proc st (Security.resolve proc p)
  = Security.isPathAllowed proc st p.
Proof.
  unfold Security.isPathAllowed, Security.resolve.
  rewrite PosixPathFacts.resolve_idempotent. reflexivity.
Qed.

Lemma validatePath_cases (proc : Process) (st : PolicyState) (p : string) :
  Security.validatePath proc st p
  = if Security.isPathAllowed proc st (Security.resolve proc p)
    then Ok (Security.resolve proc p)
    else Throw (PathNotAllowedError p).
Proof.
  unfold Security.validatePath.
  destruct (Security.isPathAllowed proc st (Security.resolve proc p));
    reflexivity.
Qed.

(** C6.  [validatePath(p)] returns the resolved form of [p] exactly when
    [isPathAllowed] holds of that resolved form; otherwise it throws a
    [PathNotAllowedError] built from the original input [p], whose message
    therefore shows [p] and not the resolved form; it throws nothing
    else. *)
Theorem validatePath_returns_or_rejects (proc : Process) (st : PolicyState)
    (p : string) :
  (forall r, Security.validatePath proc st p = Ok r <->
             r = Security.resolve proc p /\
             Security.isPathAllowed proc st (Security.resolve proc p) = true)
  /\ (forall e, Security.validatePath proc st p = Throw e <->
                e = PathNotAllowedError p /\
                Security.isPathAllowed proc st (Security.resolve proc p)
                = false)
  /\ errorMessage (PathNotAllowedError p)
     = "Path not allowed: " +:+ p +:+
       ". Must be within ALLOWED_ROOT_DIRECTORY or DATA_DIR.".
Proof.
  rewrite validatePath_cases.
  destruct (Security.isPathAllowed proc st (Security.resolve proc p)).
  - split; [|split]; [| |reflexivity].
    + intros r. split.
      * intros H. inversion H. auto.
      * intros [-> _]. reflexivity.
    + intros e. split; [discriminate|]. intros [_ H]. discriminate.
  - split; [|split]; [| |reflexivity].
    + intros r. split; [discriminate|]. intros [_ H]. discriminate.
    + intros e. split.
      * intros H. inversion H. auto.
      * intros [-> _]. reflexivity.
Qed.



(** ** The containment primitive *)

Module ContainmentFacts.
Import PosixPath PosixPathFacts.

Lemma resolve_absolutePath (cwd : string) (segs : list string) :
  Forall (fun x => cleanSeg x = true) segs ->
  resolve cwd (absolutePath segs) = absolutePath segs.
Proof.
  intros Hall. unfold resolve, absolutePath.
  change (isAbsolute ("/" +:+ joinSegs segs)) with true.
  cbv iota. rewrite normalizeString_joinSegs by assumption. reflexivity.
Qed.

Lemma normalizeString_absolutePath (segs : list string) :
  Forall (fun x => cleanSeg x = true) segs ->
  normalizeString false (absolutePath segs) = segs.
Proof. apply normalizeString_joinSegs. Qed.

Lemma absolutePath_inj (a b : list string) :
  Forall (fun x => cleanSeg x = true) a ->
  Forall (fun x => cleanSeg x = true) b ->
  absolutePath a = absolutePath b -> a = b.
Proof.
  intros Ha Hb E.
  rewrite <- (normalizeString_joinSegs a Ha).
  rewrite <- (normalizeString_joinSegs b Hb).
  unfold absolutePath in E. rewrite E. reflexivity.
Qed.

Lemma stripPrefix_refl (a : list string) : stripPrefix a a = Some [].
Proof.
  induction a as [|x a IH]; simpl; [reflexivity|].
  rewrite String.eqb_refl. exact IH.
Qed.

Lemma stripPrefix_Some (a b extra : list string) :
  stripPrefix a b = Some extra <-> b = a ++ extra.
Proof.
  revert b. induction a as [|x a IH]; intros b; simpl.
  - split; congruence.
  - destruct b as [|y b]; [split; discriminate|].
    destruct (String.eqb x y) eqn:E.
    + apply String.eqb_eq in E. subst y. rewrite IH.
      split; congruence.
    + apply String.eqb_neq in E. split; [discriminate|].
      intros H. congruence.
Qed.

Lemma commonPrefix_stripPrefix_Some (a b extra : list string) :
  stripPrefix a b = Some extra ->
  commonPrefixLength a b = length a /\ skipn (length a) b = extra.
Proof.
  revert b. induction a as [|x a IH]; intros b; simpl.
  - intros H. inversion H. split; [|reflexivity].
    destruct b; reflexivity.
  - destruct b as [|y b]; [discriminate|].
    destruct (String.eqb x y); [|discriminate].
    intros H. destruct (IH b H) as [H1 H2]. simpl. auto.
Qed.

Lemma commonPrefix_stripPrefix_None (a b : list string) :
  stripPrefix a b = None ->
  exists k, (length a - commonPrefixLength a b)%nat = S k.
Proof.
  revert b. induction a as [|x a IH]; intros b; simpl.
  - discriminate.
  - destruct b as [|y b]; [intros _; eexists; reflexivity|].
    destruct (String.eqb x y); [|intros _; eexists; reflexivity].
    intros H. destruct (IH b H) as [k Hk]. exists k. simpl. exact Hk.
Qed.

Lemma joinSegs_dotdot_first (l : list string) :
  JsString.startsWith (joinSegs (".." :: l)) ".." = true.
Proof. destruct l; reflexivity. Qed.

Lemma startsWith_dotdot_head (e rest : string) :
  cleanSeg e = true ->
  JsString.startsWith (e +:+ "/" +:+ rest) ".."
  = JsString.startsWith e "..".
Proof.
  intros Hc. destruct e as [|c1 [|c2 e]].
  - discriminate.
  - change (String c1 "" +:+ "/" +:+ rest)
      with (String c1 (String "/" rest)).
    cbn [JsString.startsWith].
    change (Ascii.eqb "." "/") with false.
    destruct (Ascii.eqb "." c1); reflexivity.
  - change (String c1 (String c2 e) +:+ "/" +:+ rest)
      with (String c1 (String c2 (e +:+ "/" +:+ rest))).
    reflexivity.
Qed.

Lemma joinSegs_startsWith_head (e : string) (more : list string) :
  cleanSeg e = true ->
  JsString.startsWith (joinSegs (e :: more)) ".."
  = JsString.startsWith e "..".
Proof.
  intros Hc. destruct more as [|m more].
  - reflexivity.
  - change (joinSegs (e :: m :: more))
      with (e +:+ "/" +:+ joinSegs (m :: more)).
    apply startsWith_dotdot_head. exact Hc.
Qed.

Lemma joinSegs_not_absolute (e : string) (more : list string) :
  cleanSeg e = true -> isAbsolute (joinSegs (e :: more)) = false.
Proof.
  intros Hc. pose proof (cleanSeg_noSep e Hc) as Hn.
  destruct e as [|c e]; [discriminate|].
  simpl in Hn. apply andb_prop in Hn as [Hn _].
  apply negb_true_iff in Hn.
  destruct more; simpl; exact Hn.
Qed.

(** What the primitive computes on two resolved paths, in terms of
    their segments. *)
Lemma isPathWithinDirectory_segments (proc : Process)
    (bs cs : list string) :
  Forall (fun x => cleanSeg x = true) bs ->
  Forall (fun x => cleanSeg x = true) cs ->
  Security.isPathWithinDirectory proc (absolutePath cs) (absolutePath bs)
  = match stripPrefix bs cs with
    | Some [] => true
    | Some (e :: _) => negb (JsString.startsWith e "..")
    | None => false
    end.
Proof.
  intros Hb Hc. unfold Security.isPathWithinDirectory, relative.
  destruct (String.eqb (absolutePath bs) (absolutePath cs)) eqn:E.
  - apply String.eqb_eq in E. apply absolutePath_inj in E; try assumption.
    subst cs. rewrite stripPrefix_refl. reflexivity.
  - rewrite !resolve_absolutePath by assumption. rewrite E.
    rewrite !normalizeString_absolutePath by assumption.
    destruct (stripPrefix bs cs) as [[|e more]|] eqn:Hs.
    + apply stripPrefix_Some in Hs. rewrite app_nil_r in Hs. subst cs.
      rewrite String.eqb_refl in E. discriminate.
    + destruct (commonPrefix_stripPrefix_Some _ _ _ Hs) as [H1 H2].
      rewrite H1, Nat.sub_diag, H2.
      change (repeat ".." 0 ++ e :: more) with (e :: more).
      assert (He : cleanSeg e = true).
      { apply stripPrefix_Some in Hs. subst cs.
        apply Forall_app in Hc as [_ Hc]. inversion Hc; assumption. }
      rewrite joinSegs_startsWith_head, joinSegs_not_absolute
        by assumption.
      rewrite andb_true_r. reflexivity.
    + destruct (commonPrefix_stripPrefix_None _ _ Hs) as [k Hk].
      rewrite Hk.
      change (repeat ".." (S k) ++ skipn (commonPrefixLength bs cs) cs)
        with (".." :: (repeat ".." k
                       ++ skipn (commonPrefixLength bs cs) cs)).
      rewrite joinSegs_dotdot_first. reflexivity.
Qed.

(** The same for the resolved forms of arbitrary paths. *)
Lemma isPathWithinDirectory_resolved (proc : Process) (b c : string) :
  let b' := Security.resolve proc b in
  let c' := Security.resolve proc c in
  Security.isPathWithinDirectory proc c' b'
  = match stripPrefix (normalizeString false b')
            (normalizeString false c') with
    | Some [] => true
    | Some (e :: _) => negb (JsString.startsWith e "..")
    | None => false
    end.
Proof.
  intros b' c'. subst b' c'. unfold Security.resolve, resolve.
  set (bs := normalizeString false
               (if isAbsolute b then b else cwd proc +:+ "/" +:+ b)).
  set (cs := normalizeString false
               (if isAbsolute c then c else cwd proc +:+ "/" +:+ c)).
  assert (Hb : Forall (fun x => cleanSeg x = true) bs)
    by apply normalizeString_clean.
  assert (Hc : Forall (fun x => cleanSeg x = true) cs)
    by apply normalizeString_clean.
  rewrite !normalizeString_joinSegs by assumption.
  apply (isPathWithinDirectory_segments proc bs cs Hb Hc).
Qed.

(** The boundary itself is inside, whatever string it is. *)
Lemma isPathWithinDirectory_boundary (proc : Process) (b : string) :
  Security.isPathWithinDirectory proc b b = true.
Proof.
  unfold Security.isPathWithinDirectory, relative.
  rewrite String.eqb_refl. reflexivity.
Qed.

Lemma split_append_sep (p : string) : split (p +:+ "/") = split p ++ [""].
Proof.
  induction p as [|c p IH]; [reflexivity|].
  change (String c p +:+ "/") with (String c (p +:+ "/")).
  simpl. rewrite IH. destruct (isSep c); [reflexivity|].
  pose proof (split_not_nil p) as Hne.
  destruct (split p); [contradiction | reflexivity].
Qed.

Lemma normalizeString_append_sep (p : string) :
  normalizeString false (p +:+ "/") = normalizeString false p.
Proof.
  unfold normalizeString. rewrite split_append_sep, fold_left_app.
  reflexivity.
Qed.

(** The boundary written with a trailing separator is inside. *)
Lemma isPathWithinDirectory_trailing_separator (proc : Process)
    (bs : list string) :
  Forall (fun x => cleanSeg x = true) bs ->
  Security.isPathWithinDirectory proc (absolutePath bs +:+ "/")
    (absolutePath bs) = true.
Proof.
  intros Hb. unfold Security.isPathWithinDirectory, relative.
  destruct (String.eqb (absolutePath bs) (absolutePath bs +:+ "/"));
    [reflexivity|].
  assert (E : resolve (cwd proc) (absolutePath bs +:+ "/")
              = resolve (cwd proc) (absolutePath bs)).
  { unfold resolve.
    change (isAbsolute (absolutePath bs +:+ "/")) with true.
    change (isAbsolute (absolutePath bs)) with true. cbv iota.
    rewrite normalizeString_append_sep. reflexivity. }
  rewrite E, String.eqb_refl. reflexivity.
Qed.

(** A descendant is inside unless the name of its first segment below
    the boundary begins with two dots. *)
Lemma isPathWithinDirectory_descendant (proc : Process)
    (bs : list string) (e : string) (more : list string) :
  Forall (fun x => cleanSeg x = true) (bs ++ e :: more) ->
  Security.isPathWithinDirectory proc (absolutePath (bs ++ e :: more))
    (absolutePath bs) = negb (JsString.startsWith e "..").
Proof.
  intros Hc.
  assert (Hb : Forall (fun x => cleanSeg x = true) bs).
  { apply Forall_app in Hc as [Hb _]. exact Hb. }
  rewrite isPathWithinDirectory_segments by assumption.
  assert (Hs : stripPrefix bs (bs ++ e :: more) = Some (e :: more))
    by (apply stripPrefix_Some; reflexivity).
  rewrite Hs. reflexivity.
Qed.

(** Outside the boundary means rejected: a sibling with a longer name,
    the parent, an unrelated path. *)
Lemma isPathWithinDirectory_outside (proc : Process) :
  Security.isPathWithinDirectory proc "/allowed2" "/allowed" = false
  /\ Security.isPathWithinDirectory proc "/allowedextra" "/allowed" = false
  /\ Security.isPathWithinDirectory proc "/" "/allowed" = false
  /\ Security.isPathWithinDirectory proc "/etc/passwd" "/allowed" = false.
Proof. repeat split; reflexivity. Qed.

End ContainmentFacts.

(** C2.  The primitive accepts the boundary and rejects what lies outside,
    but it does not accept every descendant: under the boundary [/allowed]
    the candidate [/allowed/..cfg], a descendant of it, is rejected, because
    the relative path [..cfg] begins with two dots. *)
Theorem isPathWithinDirectory_rejects_a_descendant (proc : Process) :
  isDescendantOrSelf "/allowed" "/allowed/..cfg" = true
  /\ PosixPath.relative (cwd proc) "/allowed" "/allowed/..cfg" = "..cfg"
  /\ Security.isPathWithinDirectory proc "/allowed/..cfg" "/allowed" = false.
Proof. repeat split; reflexivity. Qed.

(** C8.  The containment check looks at the first two characters of the
    relative path, not at its first segment: whenever
    [path.relative(boundary, candidate)] begins with two dots the primitive
    answers false.  Hence every descendant of the allowed root whose first
    segment below the root has a name that begins with two dots is denied by
    [isPathAllowed] (unless the data directory contains it), although it
    lies strictly inside the root; [/allowed/..cfg] under [/allowed] is
    one. *)
Theorem isPathWithinDirectory_compares_string_prefix :
  (forall (proc : Process) (candidate boundary : string),
      JsString.startsWith
        (PosixPath.relative (cwd proc) boundary candidate) ".." = true ->
      Security.isPathWithinDirectory proc candidate boundary = false)
  /\ (forall (proc : Process) (st : PolicyState) (bs : list string)
             (e : string) (more : list string),
        Forall (fun x => PosixPath.cleanSeg x = true) (bs ++ e :: more) ->
        JsString.startsWith e ".." = true ->
        Security.configured (allowedRootDirectory st)
        = Some (PosixPath.absolutePath bs) ->
        ~ containedIn proc (PosixPath.absolutePath (bs ++ e :: more))
            (dataDirectory st) ->
        isDescendantOrSelf (PosixPath.absolutePath bs)
          (PosixPath.absolutePath (bs ++ e :: more)) = true
        /\ PosixPath.absolutePath (bs ++ e :: more)
           <> PosixPath.absolutePath bs
        /\ Security.isPathAllowed proc st
             (PosixPath.absolutePath (bs ++ e :: more)) = false)
  /\ (forall (proc : Process) (mode : SecurityMode),
        isDescendantOrSelf "/allowed" "/allowed/..cfg" = true
        /\ Security.isPathAllowed proc
             {| securityMode := mode;
                allowedRootDirectory := Some "/allowed";
                dataDirectory := None |} "/allowed/..cfg" = false).
Proof.
  split; [|split].
  - intros proc candidate boundary H.
    unfold Security.isPathWithinDirectory. rewrite H. reflexivity.
  - intros proc st bs e more Hc He Hroot Hdata.
    assert (Hb : Forall (fun x => PosixPath.cleanSeg x = true) bs).
    { apply Forall_app in Hc as [Hb _]. exact Hb. }
    split; [|split].
    + unfold isDescendantOrSelf.
      rewrite !ContainmentFacts.normalizeString_absolutePath by assumption.
      assert (Hs : PosixPath.stripPrefix bs (bs ++ e :: more)
                   = Some (e :: more))
        by (apply ContainmentFacts.stripPrefix_Some; reflexivity).
      rewrite Hs. reflexivity.
    + intros E. apply ContainmentFacts.absolutePath_inj in E;
        try assumption.
      rewrite <- (app_nil_r bs) in E at 2.
      apply app_inv_head in E. discriminate.
    + destruct (Security.isPathAllowed proc st
                  (PosixPath.absolutePath (bs ++ e :: more))) eqn:A;
        [|reflexivity].
      apply isPathAllowed_cases in A.
      assert (R : Security.resolve proc
                    (PosixPath.absolutePath (bs ++ e :: more))
                  = PosixPath.absolutePath (bs ++ e :: more))
        by (apply ContainmentFacts.resolve_absolutePath; assumption).
      rewrite R in A.
      destruct A as [A | [(r & Er & W) | [U _]]].
      * contradiction.
      * rewrite Hroot in Er. inversion Er; subst r.
        rewrite ContainmentFacts.isPathWithinDirectory_descendant in W
          by assumption.
        rewrite He in W. discriminate.
      * unfold unset in U. congruence.
  - intros proc mode. split; [reflexivity|].
    destruct mode; reflexivity.
Qed.


(** ** [validatePathWithSymlinkCheck] on a path that does not exist *)

Lemma outcome_bind {A B} (m : M A) (k : A -> M B) :
  outcome (bind m k)
  = match outcome m with
    | Ok a => outcome (k a)
    | Throw e => Throw e
    end.
Proof.
  destruct m as [t [a|e]]; simpl; [|reflexivity].
  destruct (k a); reflexivity.
Qed.

Lemma trace_bind {A B} (m : M A) (k : A -> M B) :
  trace (bind m k)
  = trace m ++ match outcome m with
               | Ok a => trace (k a)
               | Throw _ => []
               end.
Proof.
  destruct m as [t [a|e]]; simpl.
  - destruct (k a); reflexivity.
  - rewrite app_nil_r. reflexivity.
Qed.

Lemma outcome_tryCatch {A} (m : M A) (h : Error -> M A) :
  outcome (tryCatch m h)
  = match outcome m with
    | Ok a => Ok a
    | Throw e => outcome (h e)
    end.
Proof.
  destruct m as [t [a|e]]; simpl; [reflexivity|].
  destruct (h e); reflexivity.
Qed.

Lemma trace_tryCatch {A} (m : M A) (h : Error -> M A) :
  trace (tryCatch m h)
  = trace m ++ match outcome m with
               | Ok _ => []
               | Throw e => trace (h e)
               end.
Proof.
  destruct m as [t [a|e]]; simpl.
  - rewrite app_nil_r. reflexivity.
  - destruct (h e); reflexivity.
Qed.

(** What the validator returns for a new path, whatever the parent is. *)
Lemma validatePathWithSymlinkCheck_new (proc : Process) (st : PolicyState)
    (fs : FileSystem) (p : string) :
  lstatSync fs (Security.resolve proc p) = inl ENOENT ->
  outcome (Security.validatePathWithSymlinkCheck proc st fs p false)
  = match realpathSync fs
            (PosixPath.dirname (Security.resolve proc p)) with
    | inr realParent =>
        if Security.isPathAllowed proc st realParent
        then Ok (PosixPath.join realParent
                   (PosixPath.basename (Security.resolve proc p)))
        else Throw (PathNotAllowedError
                      (p +:+ " (parent resolves to " +:+ realParent
                       +:+ ")"))
    | inl ENOENT => Security.validatePath proc st p
    | inl code => Throw (ErrnoException code)
    end.
Proof.
  intros Hl. unfold Security.validatePathWithSymlinkCheck.
  unfold Security.lstatSyncM, Security.realpathSyncM. rewrite Hl.
  cbn -[Security.isPathAllowed Security.validatePath PosixPath.dirname
        PosixPath.join PosixPath.basename Security.resolve String.append].
  destruct (realpathSync fs (PosixPath.dirname (Security.resolve proc p)))
    as [code|realParent].
  - destruct code;
      cbn -[Security.isPathAllowed Security.validatePath String.append];
      reflexivity.
  - cbn -[Security.isPathAllowed Security.validatePath PosixPath.dirname
          PosixPath.join PosixPath.basename Security.resolve String.append].
    destruct (Security.isPathAllowed proc st realParent); reflexivity.
Qed.

(** C3 (amended).  For a path that does not exist,
    [validatePathWithSymlinkCheck(p, {requireExists: false})] looks one
    level up only.  When the parent directory of the resolved path has a
    real path, that real path is validated and the result is the child
    rebuilt under it, so the nearest existing ancestor is the one that is
    validated; when the parent is missing too, the result is that of
    [validatePath(p)], with no symbolic link resolved; any other error of
    the parent lookup is rethrown. *)
Theorem validatePathWithSymlinkCheck_new_path (proc : Process)
    (st : PolicyState) (fs : FileSystem) (p : string) :
  lstatSync fs (Security.resolve proc p) = inl ENOENT ->
  outcome (Security.validatePathWithSymlinkCheck proc st fs p false)
  = match realpathSync fs
            (PosixPath.dirname (Security.resolve proc p)) with
    | inr realParent =>
        if Security.isPathAllowed proc st realParent
        then Ok (PosixPath.join realParent
                   (PosixPath.basename (Security.resolve proc p)))
        else Throw (PathNotAllowedError
                      (p +:+ " (parent resolves to " +:+ realParent
                       +:+ ")"))
    | inl ENOENT => Security.validatePath proc st p
    | inl code => Throw (ErrnoException code)
    end
  /\ (forall realParent,
        realpathSync fs (PosixPath.dirname (Security.resolve proc p))
        = inr realParent ->
        createsUnderNearestAncestor proc st fs p
          (outcome
             (Security.validatePathWithSymlinkCheck proc st fs p false))).
Proof.
  intros Hl. split; [apply validatePathWithSymlinkCheck_new; exact Hl|].
  intros realParent Hr.
  rewrite validatePathWithSymlinkCheck_new by exact Hl. rewrite Hr.
  unfold createsUnderNearestAncestor.
  assert (Hn : forall fuel below,
             nearestExistingAncestor fs fuel
               (PosixPath.dirname (Security.resolve proc p)) below
             = Some (realParent, below)).
  { intros fuel below. destruct fuel; simpl; rewrite Hr; reflexivity. }
  cbv zeta. rewrite Hn.
  destruct (Security.isPathAllowed proc st realParent).
  - reflexivity.
  - eexists. reflexivity.
Qed.

Lemma validatePathWithSymlinkCheck_new_path_witness :
  outcome (Security.validatePathWithSymlinkCheck Demo.proc Demo.st Demo.fs
             "/allowed/docs/new.txt" false)
  = Ok "/allowed/docs/new.txt".
Proof.
  destruct (validatePathWithSymlinkCheck_new_path Demo.proc Demo.st Demo.fs
              "/allowed/docs/new.txt") as [H _].
  - vm_compute. reflexivity.
  - rewrite H. vm_compute. reflexivity.
Defined.

(** C3 as stated fails.  [/allowed/link] is a symbolic link to [/etc];
    neither [/allowed/link/new/file.txt] nor its parent exists, and the
    nearest existing ancestor, [/allowed/link], has the real path [/etc],
    outside the boundary.  The validator accepts the path and returns it
    as it was written. *)
Lemma nearest_ancestor_is_not_validated :
  let p := "/allowed/link/new/file.txt" in
  let resolvedPath := Security.resolve Demo.proc p in
  lstatSync Demo.fs resolvedPath = inl ENOENT
  /\ nearestExistingAncestor Demo.fs (String.length resolvedPath)
       (PosixPath.dirname resolvedPath) [PosixPath.basename resolvedPath]
     = Some ("/etc", ["new"; "file.txt"])
  /\ Security.isPathAllowed Demo.proc Demo.st "/etc" = false
  /\ outcome (Security.validatePathWithSymlinkCheck Demo.proc Demo.st
                Demo.fs p false) = Ok "/allowed/link/new/file.txt"
  /\ ~ createsUnderNearestAncestor Demo.proc Demo.st Demo.fs p
         (outcome (Security.validatePathWithSymlinkCheck Demo.proc Demo.st
                     Demo.fs p false)).
Proof.
  cbv zeta. repeat split; try (vm_compute; reflexivity).
  vm_compute. intros [message H]. discriminate H.
Qed.

(** ** The adapter *)

(** Every operation is its validators, chosen by class, followed by the
    delegated call on the validated paths. *)
Lemma run_refines (proc : Process) (st : PolicyState) (fs : FileSystem)
    (i : Invocation) :
  run proc st fs i = runAsSpecified proc st fs i.
Proof.
  destruct i; unfold run, runAsSpecified;
    cbn [classOf validatorsFor pathArguments combine validateAll
         runValidator];
    unfold SecureFs.access, SecureFs.readFile, SecureFs.writeFile,
      SecureFs.mkdir, SecureFs.readdir, SecureFs.stat, SecureFs.rm,
      SecureFs.unlink, SecureFs.copyFile, SecureFs.appendFile,
      SecureFs.rename, SecureFs.lstat, SecureFs.validatePath,
      SecureFs.validatePathWithSymlinkCheck.
  all: try (destruct (Security.validatePathWithSymlinkCheck proc st fs src
                        true) as [t1 [v1|e1]]; [|reflexivity];
            destruct (Security.validatePathWithSymlinkCheck proc st fs dest
                        false) as [t2 [v2|e2]]; cbn;
            rewrite ?app_nil_r, <- ?app_assoc; reflexivity).
  all: try (destruct (Security.validatePathWithSymlinkCheck proc st fs
                        oldPath true) as [t1 [v1|e1]]; [|reflexivity];
            destruct (Security.validatePathWithSymlinkCheck proc st fs
                        newPath false) as [t2 [v2|e2]]; cbn;
            rewrite ?app_nil_r, <- ?app_assoc; reflexivity).
  all: try (destruct (Security.validatePathWithSymlinkCheck proc st fs
                        filePath true) as [t1 [v1|e1]]; [|reflexivity]).
  all: try (destruct (Security.validatePathWithSymlinkCheck proc st fs
                        filePath false) as [t1 [v1|e1]]; [|reflexivity]).
  all: try (destruct (Security.validatePathWithSymlinkCheck proc st fs
                        dirPath true) as [t1 [v1|e1]]; [|reflexivity]).
  all: try (destruct (Security.validatePathWithSymlinkCheck proc st fs
                        dirPath false) as [t1 [v1|e1]]; [|reflexivity]).
  all: try (destruct (Security.validatePath proc st filePath) as [v1|e1];
            [|reflexivity]).
  all: cbn [bind ret emit lift withPaths callOf].
  all: try (rewrite ?app_nil_r; reflexivity).
  - destruct encoding as [e|]; [destruct (JsString.truthy e)|]; cbn;
      rewrite ?app_nil_r; reflexivity.
  - destruct options as [[[[|]|] enc]|]; cbn; rewrite ?app_nil_r;
      reflexivity.
Qed.

(** C4.  Each adapter operation validates its path arguments with the
    validator of its class and then delegates: [access], [readFile],
    [readdir], [stat], [rm] and [unlink] use
    [validatePathWithSymlinkCheck] with [requireExists = true];
    [writeFile], [mkdir] and [appendFile] use it with
    [requireExists = false]; [copyFile] and [rename] validate the source
    with [true] and then the destination with [false]; [lstat] uses
    [validatePath]. *)
Theorem adapter_selects_validator_by_class (proc : Process)
    (st : PolicyState) (fs : FileSystem) (i : Invocation) :
  run proc st fs i
  = (validated <- validateAll proc st fs
                    (combine (validatorsFor (classOf i)) (pathArguments i)) ;;
     emit (EvFs (callOf (withPaths i validated))))
  /\ length (validatorsFor (classOf i)) = length (pathArguments i)
  /\ validatorsFor (classOf i)
     = match i with
       | Access _ _ | ReadFile _ _ | Readdir _ _ | Stat _ | Rm _ _
       | Unlink _ => [SymlinkCheck true]
       | WriteFile _ _ _ | Mkdir _ _ | AppendFile _ _ _ =>
           [SymlinkCheck false]
       | CopyFile _ _ _ | Rename _ _ =>
           [SymlinkCheck true; SymlinkCheck false]
       | Lstat _ => [Basic]
       end.
Proof.
  split; [apply run_refines|].
  split; destruct i; reflexivity.
Qed.

Lemma fsCalls_app (t1 t2 : list Event) :
  fsCalls (t1 ++ t2) = fsCalls t1 ++ fsCalls t2.
Proof. unfold fsCalls. apply flat_map_app. Qed.

Lemma quiet_ret {A} (a : A) : quiet (ret a).
Proof. reflexivity. Qed.

Lemma quiet_throw {A} (e : Error) : quiet (@throw A e).
Proof. reflexivity. Qed.

Lemma quiet_lift {A} (r : result A) : quiet (lift r).
Proof. reflexivity. Qed.

Lemma quiet_bind {A B} (m : M A) (k : A -> M B) :
  quiet m -> (forall a, quiet (k a)) -> quiet (bind m k).
Proof.
  unfold quiet. intros Hm Hk. rewrite trace_bind, fsCalls_app, Hm.
  destruct (outcome m); [apply Hk | reflexivity].
Qed.

Lemma quiet_tryCatch {A} (m : M A) (h : Error -> M A) :
  quiet m -> (forall e, quiet (h e)) -> quiet (tryCatch m h).
Proof.
  unfold quiet. intros Hm Hh. rewrite trace_tryCatch, fsCalls_app, Hm.
  destruct (outcome m); [reflexivity | apply Hh].
Qed.

Lemma quiet_if {A} (b : bool) (m1 m2 : M A) :
  quiet m1 -> quiet m2 -> quiet (if b then m1 else m2).
Proof. destruct b; auto. Qed.

Create HintDb quiet.
#[local] Hint Resolve quiet_ret quiet_throw quiet_lift : quiet.

(** The validators only probe; they delegate nothing. *)
Lemma quiet_validatePathWithSymlinkCheck (proc : Process)
    (st : PolicyState) (fs : FileSystem) (p : string) (b : bool) :
  quiet (Security.validatePathWithSymlinkCheck proc st fs p b).
Proof.
  unfold Security.validatePathWithSymlinkCheck, Security.lstatSyncM,
    Security.realpathSyncM.
  apply quiet_tryCatch.
  - repeat first
      [ apply quiet_bind; [|intros ?]
      | apply quiet_if
      | solve [auto with quiet]
      | reflexivity ].
  - intros e. apply quiet_if; [apply quiet_if|]; auto with quiet.
    apply quiet_tryCatch.
    + repeat first
        [ apply quiet_bind; [|intros ?]
        | apply quiet_if
        | solve [auto with quiet]
        | reflexivity ].
    + intros e'. apply quiet_if; auto with quiet.
Qed.

Lemma quiet_runValidator (proc : Process) (st : PolicyState)
    (fs : FileSystem) (v : Validator) (p : string) :
  quiet (runValidator proc st fs v p).
Proof.
  destruct v; [apply quiet_validatePathWithSymlinkCheck | apply quiet_lift].
Qed.

Lemma quiet_validateAll (proc : Process) (st : PolicyState)
    (fs : FileSystem) (args : list (Validator * string)) :
  quiet (validateAll proc st fs args).
Proof.
  induction args as [|[v p] rest IH]; [reflexivity|].
  cbn [validateAll]. apply quiet_bind; [apply quiet_runValidator|].
  intros a. apply quiet_bind; [exact IH|]. intros others. reflexivity.
Qed.

Lemma validateAll_fails (proc : Process) (st : PolicyState)
    (fs : FileSystem) (args : list (Validator * string)) :
  Exists (fun vp => exists e,
            outcome (runValidator proc st fs (fst vp) (snd vp)) = Throw e)
    args ->
  exists e, outcome (validateAll proc st fs args) = Throw e.
Proof.
  induction args as [|[v p] rest IH]; intros H.
  - inversion H.
  - cbn [validateAll]. rewrite outcome_bind.
    destruct (outcome (runValidator proc st fs v p)) as [a|e] eqn:E.
    + rewrite outcome_bind.
      inversion H as [? ? [e He]|? ? Hrest]; subst.
      * cbn [fst snd] in He. congruence.
      * destruct (IH Hrest) as [e He]. rewrite He. eauto.
    + eauto.
Qed.

Lemma validateAll_succeeds (proc : Process) (st : PolicyState)
    (fs : FileSystem) (args : list (Validator * string))
    (validated : list string) :
  Forall2 (fun vp out =>
             outcome (runValidator proc st fs (fst vp) (snd vp)) = Ok out)
    args validated ->
  outcome (validateAll proc st fs args) = Ok validated.
Proof.
  intros H. induction H as [|[v p] out rest outs Hv Hrest IH].
  - reflexivity.
  - cbn [validateAll]. cbn [fst snd] in Hv.
    rewrite outcome_bind, Hv, outcome_bind, IH. reflexivity.
Qed.

(** C5.  If the validation of some path argument of an adapter operation
    fails, the operation throws and delegates no call to [fs/promises];
    if every validation succeeds, the operation delegates exactly one call,
    and the paths of that call are the paths the validators returned. *)
Theorem adapter_validates_before_delegating (proc : Process)
    (st : PolicyState) (fs : FileSystem) (i : Invocation) :
  let args := combine (validatorsFor (classOf i)) (pathArguments i) in
  map snd args = pathArguments i
  /\ (Exists (fun vp => exists e,
                outcome (runValidator proc st fs (fst vp) (snd vp))
                = Throw e) args ->
      (exists e, outcome (run proc st fs i) = Throw e)
      /\ fsCalls (trace (run proc st fs i)) = [])
  /\ (forall validated : list string,
        Forall2 (fun vp out =>
                   outcome (runValidator proc st fs (fst vp) (snd vp))
                   = Ok out) args validated ->
        outcome (run proc st fs i) = Ok tt
        /\ fsCalls (trace (run proc st fs i))
           = [callOf (withPaths i validated)]
        /\ callPaths (callOf (withPaths i validated)) = validated).
Proof.
  intros args. split; [destruct i; reflexivity|].
  rewrite run_refines. unfold runAsSpecified. fold args.
  pose proof (quiet_validateAll proc st fs args) as Hq.
  unfold quiet in Hq. split.
  - intros Hfail. apply validateAll_fails in Hfail as [e He].
    rewrite outcome_bind, trace_bind, fsCalls_app, Hq, He.
    split; [eauto | reflexivity].
  - intros validated Hok.
    pose proof (validateAll_succeeds _ _ _ _ _ Hok) as He.
    rewrite outcome_bind, trace_bind, fsCalls_app, Hq, He.
    split; [reflexivity | split; [reflexivity|]].
    subst args. clear He Hq.
    destruct i; cbn [classOf validatorsFor pathArguments combine] in Hok;
      repeat match goal with
             | H : Forall2 _ (_ :: _) _ |- _ =>
                 inversion H; subst; clear H
             | H : Forall2 _ [] _ |- _ => inversion H; subst; clear H
             end;
      cbn [withPaths callOf callPaths]; try reflexivity.
    + destruct encoding as [e|]; [destruct (JsString.truthy e)|];
        reflexivity.
    + destruct options as [[[[|]|] enc]|]; reflexivity.
Qed.

(** ** The middleware *)




(** ** Initialisation *)

Lemma resolve_isAbsolute (proc : Process) (p : string) :
  PosixPath.isAbsolute (Security.resolve proc p) = true.
Proof. reflexivity. Qed.

Lemma envTruthy_loaded (proc : Process) (name : string)
    (before : option string) :
  match Security.envTruthy proc name with
  | Some v => Some (Security.resolve proc v)
  | None => before
  end = loaded proc name before.
Proof.
  unfold Security.envTruthy, loaded.
  destruct (env proc !! name) as [[|c v]|]; reflexivity.
Qed.

Lemma initAllowedPaths_outcome (proc : Process) (st : PolicyState) :
  outcome (Security.initAllowedPaths proc st)
  = Ok {| securityMode := if Security.modeIsPermissive proc
                          then Permissive else Strict;
          allowedRootDirectory :=
            loaded proc "ALLOWED_ROOT_DIRECTORY" (allowedRootDirectory st);
          dataDirectory := loaded proc "DATA_DIR" (dataDirectory st) |}.
Proof.
  rewrite <- !envTruthy_loaded. unfold Security.initAllowedPaths.
  destruct (Security.modeIsPermissive proc);
    destruct (Security.envTruthy proc "ALLOWED_ROOT_DIRECTORY");
    destruct (Security.envTruthy proc "DATA_DIR"); reflexivity.
Qed.

Lemma ascii_eqb_nat (a b : ascii) :
  Ascii.eqb a b = Nat.eqb (nat_of_ascii a) (nat_of_ascii b).
Proof.
  destruct (Ascii.eqb a b) eqn:E.
  - apply Ascii.eqb_eq in E. subst. symmetry. apply Nat.eqb_refl.
  - symmetry. apply Nat.eqb_neq. intros H. apply Ascii.eqb_neq in E.
    apply E. rewrite <- (ascii_nat_embedding a), <- (ascii_nat_embedding b).
    rewrite H. reflexivity.
Qed.

(** Lower-casing meets a lower-case letter exactly from that letter in
    either case. *)
Lemma lowerChar_letter (a b : ascii) :
  JsString.isLowerLetter b = true ->
  Ascii.eqb (JsString.lowerChar a) b
  = Ascii.eqb a b || Ascii.eqb a (JsString.upperChar b).
Proof.
  unfold JsString.isLowerLetter, JsString.lowerChar, JsString.upperChar.
  intros Hb. apply andb_prop in Hb as [Hb1 Hb2].
  apply Nat.leb_le in Hb1, Hb2.
  pose proof (nat_ascii_bounded a) as Ha.
  rewrite !ascii_eqb_nat.
  destruct ((65 <=? nat_of_ascii a)%nat && (nat_of_ascii a <=? 90)%nat)
    eqn:E.
  - apply andb_prop in E as [E1 E2]. apply Nat.leb_le in E1, E2.
    rewrite !nat_ascii_embedding by lia.
    destruct (Nat.eqb_spec (nat_of_ascii a + 32) (nat_of_ascii b));
      destruct (Nat.eqb_spec (nat_of_ascii a) (nat_of_ascii b));
      destruct (Nat.eqb_spec (nat_of_ascii a) (nat_of_ascii b - 32));
      simpl; try reflexivity; lia.
  - rewrite nat_ascii_embedding by lia.
    apply andb_false_iff in E.
    destruct (Nat.eqb_spec (nat_of_ascii a) (nat_of_ascii b));
      destruct (Nat.eqb_spec (nat_of_ascii a) (nat_of_ascii b - 32));
      simpl; try reflexivity.
    destruct E as [E|E]; apply Nat.leb_gt in E; lia.
Qed.

Lemma toLowerCase_equalsIgnoringCase (target v : string) :
  JsString.lowerWord target = true ->
  String.eqb (JsString.toLowerCase v) target
  = JsString.equalsIgnoringCase v target.
Proof.
  revert v. induction target as [|b target IH]; intros v Hall.
  - destruct v; reflexivity.
  - destruct v as [|a v]; [reflexivity|].
    cbn [JsString.lowerWord] in Hall. apply andb_prop in Hall as [Hb Ht].
    cbn [JsString.toLowerCase JsString.equalsIgnoringCase String.eqb].
    rewrite lowerChar_letter by assumption. rewrite IH by assumption.
    destruct (Ascii.eqb a b || Ascii.eqb a (JsString.upperChar b));
      reflexivity.
Qed.

Lemma modeIsPermissive_iff (proc : Process) :
  Security.modeIsPermissive proc = true <->
  exists v, env proc !! "SECURITY_MODE" = Some v /\
            JsString.equalsIgnoringCase v "permissive" = true.
Proof.
  unfold Security.modeIsPermissive.
  destruct (env proc !! "SECURITY_MODE") as [v|].
  - rewrite toLowerCase_equalsIgnoringCase by reflexivity.
    split; [eauto|]. intros (v' & E & H). congruence.
  - split; [discriminate|]. intros (v' & E & _). discriminate.
Qed.

(** C10.  [initAllowedPaths] never throws.  A directory variable that is
    unset or empty leaves its boundary as it was, so it stays [null] after
    the first initialisation; any other value becomes its resolved,
    absolute form.  The mode is permissive exactly when [SECURITY_MODE] is
    set and its lower-cased value is [permissive], that is, when it is the
    word [permissive] in any casing, and strict for every other value and
    when it is unset. *)
Theorem initAllowedPaths_configuration (proc : Process) (st : PolicyState) :
  exists st' : PolicyState,
    outcome (Security.initAllowedPaths proc st) = Ok st'
    /\ (securityMode st' = Permissive <->
        exists v, env proc !! "SECURITY_MODE" = Some v /\
                  JsString.toLowerCase v = "permissive")
    /\ (securityMode st' = Strict <->
        ~ exists v, env proc !! "SECURITY_MODE" = Some v /\
                    JsString.toLowerCase v = "permissive")
    /\ (securityMode st' = Permissive <->
        exists v, env proc !! "SECURITY_MODE" = Some v /\
                  JsString.equalsIgnoringCase v "permissive" = true)
    /\ allowedRootDirectory st'
       = match env proc !! "ALLOWED_ROOT_DIRECTORY" with
         | None | Some EmptyString => allowedRootDirectory st
         | Some v => Some (Security.resolve proc v)
         end
    /\ dataDirectory st'
       = match env proc !! "DATA_DIR" with
         | None | Some EmptyString => dataDirectory st
         | Some v => Some (Security.resolve proc v)
         end
    /\ (forall v, PosixPath.isAbsolute (Security.resolve proc v) = true)
    /\ (st = initialState ->
        (env proc !! "ALLOWED_ROOT_DIRECTORY" = None \/
         env proc !! "ALLOWED_ROOT_DIRECTORY" = Some "" ->
         allowedRootDirectory st' = None)
        /\ (env proc !! "DATA_DIR" = None \/
            env proc !! "DATA_DIR" = Some "" ->
            dataDirectory st' = None)).
Proof.
  eexists. split; [apply initAllowedPaths_outcome|].
  cbn [securityMode allowedRootDirectory dataDirectory].
  assert (Hmode : Security.modeIsPermissive proc = true <->
                  exists v, env proc !! "SECURITY_MODE" = Some v /\
                            JsString.toLowerCase v = "permissive").
  { unfold Security.modeIsPermissive.
    destruct (env proc !! "SECURITY_MODE") as [v|].
    - rewrite String.eqb_eq. split.
      + intros H. exists v. auto.
      + intros (v' & E & H). inversion E; subst. exact H.
    - split; [discriminate|]. intros (v' & E & _). discriminate. }
  split; [|split; [|split; [|split; [|split; [|split]]]]];
    try reflexivity.
  - rewrite <- Hmode.
    destruct (Security.modeIsPermissive proc); split; congruence.
  - rewrite <- Hmode.
    destruct (Security.modeIsPermissive proc); split; congruence.
  - rewrite <- modeIsPermissive_iff.
    destruct (Security.modeIsPermissive proc); split; congruence.
  - intros ->. unfold loaded.
    split; intros [E|E]; rewrite E; reflexivity.
Qed.

(** Spellings of [SECURITY_MODE]: any casing of [permissive] selects the
    permissive mode; a misspelling, surrounding space and the empty string
    select the strict one. *)
Example security_mode_spellings :
  let mode v :=
    Security.modeIsPermissive
      {| cwd := "/"; env := {[ "SECURITY_MODE" := v ]} |} in
  mode "permissive" = true /\ mode "PERMISSIVE" = true
  /\ mode "Permissive" = true /\ mode "permisive" = false
  /\ mode " permissive" = false /\ mode "strict" = false
  /\ mode "" = false.
Proof. vm_compute. repeat split; reflexivity. Qed.


(** * Further properties of the code *)

(** ** The policy engine *)

Ltac validator_step :=
  cbn -[Security.isPathAllowed Security.validatePath PosixPath.dirname
        PosixPath.join PosixPath.basename Security.resolve String.append].

(** Outcome and events of the validator, by what the two probes answer. *)
Lemma validatePathWithSymlinkCheck_run (proc : Process) (st : PolicyState)
    (fs : FileSystem) (p : string) (requireExists : bool) :
  let r := Security.resolve proc p in
  let missing :=
    if requireExists then ([], Throw (ErrnoException ENOENT))
    else ([EvRealpathSync (PosixPath.dirname r)],
          newPathOutcome proc st fs p) in
  Security.validatePathWithSymlinkCheck proc st fs p requireExists
  = match lstatSync fs r with
    | inl ENOENT => (EvLstatSync r :: fst missing, snd missing)
    | inl code => ([EvLstatSync r], Throw (ErrnoException code))
    | inr stats =>
        match realpathSync fs r with
        | inl ENOENT =>
            (EvLstatSync r :: EvRealpathSync r :: fst missing, snd missing)
        | inl code =>
            ([EvLstatSync r; EvRealpathSync r],
             Throw (ErrnoException code))
        | inr real =>
            if Security.isPathAllowed proc st real
            then ([EvLstatSync r; EvRealpathSync r]
                  ++ (if isSymbolicLink stats
                      then [EvConsole ConsoleLog
                              ("[Security] Symlink detected: " +:+ r
                               +:+ " -> " +:+ real)]
                      else []),
                  Ok real)
            else ([EvLstatSync r; EvRealpathSync r],
                  Throw (PathNotAllowedError
                           (p +:+ " (resolves to " +:+ real
                            +:+ " via symlink)")))
        end
    end.
Proof.
  intros r missing. subst r missing.
  unfold Security.validatePathWithSymlinkCheck, newPathOutcome,
    Security.lstatSyncM, Security.realpathSyncM.
  destruct (lstatSync fs (Security.resolve proc p)) as [code|stats].
  - destruct code, requireExists; validator_step; try reflexivity.
    destruct (realpathSync fs
                (PosixPath.dirname (Security.resolve proc p)))
      as [[]|realParent]; validator_step; try reflexivity.
    destruct (Security.isPathAllowed proc st realParent); reflexivity.
  - validator_step.
    destruct (realpathSync fs (Security.resolve proc p)) as [code|real].
    + destruct code, requireExists; validator_step; try reflexivity.
      destruct (realpathSync fs
                  (PosixPath.dirname (Security.resolve proc p)))
        as [[]|realParent]; validator_step; try reflexivity.
      destruct (Security.isPathAllowed proc st realParent); reflexivity.
    + validator_step.
      destruct (Security.isPathAllowed proc st real); validator_step;
        [|reflexivity].
      destruct (isSymbolicLink stats); reflexivity.
Qed.

Lemma isPathWithinDirectory_resolve_self (proc : Process) (d : string) :
  Security.isPathWithinDirectory proc (Security.resolve proc d) d = true.
Proof.
  unfold Security.isPathWithinDirectory, PosixPath.relative.
  destruct (String.eqb d (Security.resolve proc d)); [reflexivity|].
  unfold Security.resolve. rewrite PosixPathFacts.resolve_idempotent.
  rewrite String.eqb_refl. reflexivity.
Qed.

Lemma in_getAllowedPaths (st : PolicyState) (d : string) :
  In d (getAllowedPaths st) <->
  Security.configured (allowedRootDirectory st) = Some d \/
  Security.configured (dataDirectory st) = Some d.
Proof.
  unfold getAllowedPaths.
  destruct (Security.configured (allowedRootDirectory st));
    destruct (Security.configured (dataDirectory st)); simpl;
    split; intros H; repeat destruct H as [H|H];
    try congruence; try contradiction; auto;
    inversion H; auto.
Qed.

(** X1.  Every directory [getAllowedPaths()] lists is itself accepted by
    [isPathAllowed], in either mode. *)
Theorem getAllowedPaths_are_allowed (proc : Process) (st : PolicyState)
    (d : string) :
  In d (getAllowedPaths st) ->
  Security.isPathAllowed proc st d = true.
Proof.
  intros H. apply in_getAllowedPaths in H.
  apply isPathAllowed_cases.
  destruct H as [H|H]; [right; left | left]; exists d;
    (split; [exact H | apply isPathWithinDirectory_resolve_self]).
Qed.

Lemma getAllowedPaths_are_allowed_witness :
  getAllowedPaths Demo.st = ["/allowed"; "/data"]
  /\ Security.isPathAllowed Demo.proc Demo.st "/data" = true.
Proof.
  split; [vm_compute; reflexivity|].
  apply (getAllowedPaths_are_allowed Demo.proc Demo.st "/data").
  vm_compute. auto.
Defined.

(** X2.  [isPathAllowed] never accepts a path outside the boundaries:
    when the configured boundaries are resolved paths and
    [isPathAllowed(p)] is true, then either no root is configured and the
    mode is permissive, or the resolved [p] is one of the directories of
    [getAllowedPaths()] or lies below one, segment by segment. *)
Theorem isPathAllowed_sound (proc : Process) (st : PolicyState)
    (p : string) :
  boundariesResolved proc st ->
  Security.isPathAllowed proc st p = true ->
  (unset (allowedRootDirectory st) /\ securityMode st = Permissive)
  \/ exists d, In d (getAllowedPaths st) /\
               isDescendantOrSelf d (Security.resolve proc p) = true.
Proof.
  intros Hres Hall. apply isPathAllowed_cases in Hall.
  assert (Hin : forall d,
             Security.configured (allowedRootDirectory st) = Some d \/
             Security.configured (dataDirectory st) = Some d ->
             Security.isPathWithinDirectory proc (Security.resolve proc p) d
             = true ->
             exists d', In d' (getAllowedPaths st) /\
                        isDescendantOrSelf d' (Security.resolve proc p)
                        = true).
  { intros d Hd Hw. exists d. split; [apply in_getAllowedPaths; exact Hd|].
    destruct (Hres d Hd) as [d0 ->].
    rewrite ContainmentFacts.isPathWithinDirectory_resolved in Hw.
    unfold isDescendantOrSelf.
    destruct (PosixPath.stripPrefix _ _); [reflexivity | discriminate]. }
  destruct Hall as [(d & Hd & Hw) | [(d & Hd & Hw) | H]].
  - right. apply (Hin d); auto.
  - right. apply (Hin d); auto.
  - left. exact H.
Qed.

Lemma isPathAllowed_sound_witness :
  exists d, In d (getAllowedPaths Demo.st) /\
            isDescendantOrSelf d
              (Security.resolve Demo.proc "/allowed/docs/../docs/a.txt")
            = true.
Proof.
  destruct (isPathAllowed_sound Demo.proc Demo.st
              "/allowed/docs/../docs/a.txt") as [[_ H] | H].
  - intros d [H|H]; vm_compute in H; inversion H;
      [exists "/allowed" | exists "/data"]; reflexivity.
  - vm_compute. reflexivity.
  - vm_compute in H. discriminate H.
  - exact H.
Defined.

(** X3.  [initAllowedPaths] keeps the boundaries resolved: if they were
    before (as when the module is loaded, with none configured), then
    afterwards every directory of [getAllowedPaths()] is absolute and is
    its own resolved form. *)
Theorem initAllowedPaths_keeps_boundaries_resolved (proc : Process)
    (st st' : PolicyState) :
  boundariesResolved proc st ->
  outcome (Security.initAllowedPaths proc st) = Ok st' ->
  boundariesResolved proc st'
  /\ forall d, In d (getAllowedPaths st') ->
               Security.resolve proc d = d /\
               PosixPath.isAbsolute d = true.
Proof.
  intros Hres Hinit. rewrite initAllowedPaths_outcome in Hinit.
  inversion Hinit as [Hst']. clear Hinit.
  assert (Hloaded : forall name before d,
             Security.configured (loaded proc name before) = Some d ->
             Security.configured before = Some d \/
             exists d0, d = Security.resolve proc d0).
  { intros name before d. unfold loaded.
    destruct (env proc !! name) as [[|c v]|]; auto.
    intros H. right. exists (String c v).
    unfold Security.configured in H.
    destruct (JsString.truthy _); congruence. }
  assert (Hres' : boundariesResolved proc
                    {| securityMode :=
                         if Security.modeIsPermissive proc
                         then Permissive else Strict;
                       allowedRootDirectory :=
                         loaded proc "ALLOWED_ROOT_DIRECTORY"
                           (allowedRootDirectory st);
                       dataDirectory :=
                         loaded proc "DATA_DIR" (dataDirectory st) |}).
  { intros d [H|H]; cbn [allowedRootDirectory dataDirectory] in H;
      apply Hloaded in H as [H|H]; auto. }
  split; [exact Hres'|].
  intros d Hd. apply in_getAllowedPaths in Hd.
  destruct (Hres' d Hd) as [d0 ->]. split; [|reflexivity].
  apply PosixPathFacts.resolve_idempotent.
Qed.

Lemma initAllowedPaths_keeps_boundaries_resolved_witness :
  boundariesResolved Demo.proc Demo.st
  /\ forall d, In d (getAllowedPaths Demo.st) ->
               Security.resolve Demo.proc d = d /\
               PosixPath.isAbsolute d = true.
Proof.
  apply (initAllowedPaths_keeps_boundaries_resolved Demo.proc initialState).
  - intros d [H|H]; discriminate H.
  - vm_compute. reflexivity.
Defined.

(** X4.  With [requireExists] true, a path that
    [validatePathWithSymlinkCheck] returns is the real path of the entry
    and is accepted by [isPathAllowed]: no symbolic link leads the
    validator to return a path the policy denies. *)
Theorem validatePathWithSymlinkCheck_returns_allowed_real_path
    (proc : Process) (st : PolicyState) (fs : FileSystem) (p r : string) :
  outcome (Security.validatePathWithSymlinkCheck proc st fs p true) = Ok r ->
  realpathSync fs (Security.resolve proc p) = inr r
  /\ Security.isPathAllowed proc st r = true.
Proof.
  rewrite validatePathWithSymlinkCheck_run. cbv zeta.
  destruct (lstatSync fs (Security.resolve proc p)) as [[]|stats];
    try discriminate.
  destruct (realpathSync fs (Security.resolve proc p)) as [[]|real];
    try discriminate.
  destruct (Security.isPathAllowed proc st real) eqn:E; try discriminate.
  cbn [outcome snd]. intros H. inversion H; subst. auto.
Qed.

Lemma validatePathWithSymlinkCheck_returns_allowed_real_path_witness :
  realpathSync Demo.fs (Security.resolve Demo.proc "/allowed/docs/./a.txt")
  = inr "/allowed/docs/a.txt"
  /\ Security.isPathAllowed Demo.proc Demo.st "/allowed/docs/a.txt" = true.
Proof.
  apply (validatePathWithSymlinkCheck_returns_allowed_real_path
           Demo.proc Demo.st Demo.fs "/allowed/docs/./a.txt").
  vm_compute. reflexivity.
Defined.

(** X5.  An operation on an existing entry ([access], [readFile],
    [readdir], [stat], [rm], [unlink]) called on a path that does not
    exist throws [ENOENT] after the single [lstatSync] probe, whatever the
    policy says about the path, and delegates nothing. *)
Theorem missing_entry_is_ENOENT_whatever_the_policy (proc : Process)
    (st : PolicyState) (fs : FileSystem) (i : Invocation) (p : string) :
  classOf i = ReadsExisting ->
  pathArguments i = [p] ->
  lstatSync fs (Security.resolve proc p) = inl ENOENT ->
  run proc st fs i
  = ([EvLstatSync (Security.resolve proc p)],
     Throw (ErrnoException ENOENT)).
Proof.
  intros Hc Hp Hl. rewrite run_refines. unfold runAsSpecified.
  rewrite Hc, Hp. cbn [validatorsFor combine validateAll runValidator].
  rewrite validatePathWithSymlinkCheck_run. cbv zeta. rewrite Hl.
  reflexivity.
Qed.

Lemma missing_entry_is_ENOENT_whatever_the_policy_witness :
  run Demo.proc Demo.st Demo.fs (ReadFile "/etc/shadow" None)
  = ([EvLstatSync "/etc/shadow"], Throw (ErrnoException ENOENT)).
Proof.
  apply (missing_entry_is_ENOENT_whatever_the_policy Demo.proc Demo.st
           Demo.fs (ReadFile "/etc/shadow" None) "/etc/shadow");
    vm_compute; reflexivity.
Defined.

(** X6.  A system error other than [ENOENT] from [lstatSync], or from
    [realpathSync] on the entry, is rethrown as it is with either value of
    [requireExists]: the policy is not consulted and the parent directory
    is not looked at, the only events are the probes made so far. *)
Theorem system_error_is_rethrown (proc : Process) (st : PolicyState)
    (fs : FileSystem) (p : string) (requireExists : bool)
    (code : ErrnoCode) :
  code <> ENOENT ->
  lstatSync fs (Security.resolve proc p) = inl code \/
  ((exists stats, lstatSync fs (Security.resolve proc p) = inr stats) /\
   realpathSync fs (Security.resolve proc p) = inl code) ->
  Security.validatePathWithSymlinkCheck proc st fs p requireExists
  = (match lstatSync fs (Security.resolve proc p) with
     | inl _ => [EvLstatSync (Security.resolve proc p)]
     | inr _ => [EvLstatSync (Security.resolve proc p);
                 EvRealpathSync (Security.resolve proc p)]
     end,
     Throw (ErrnoException code)).
Proof.
  intros Hcode H. rewrite validatePathWithSymlinkCheck_run. cbv zeta.
  destruct H as [H | [[stats Hs] H]].
  - rewrite H. destruct code; try contradiction; reflexivity.
  - rewrite Hs, H. destruct code; try contradiction; reflexivity.
Qed.

Lemma system_error_is_rethrown_witness :
  Security.validatePathWithSymlinkCheck Demo.proc Demo.st
    DanglingDemo.guarded "/allowed/secret/file" false
  = ([EvLstatSync "/allowed/secret/file"], Throw (ErrnoException EACCES)).
Proof.
  apply (system_error_is_rethrown Demo.proc Demo.st DanglingDemo.guarded
           "/allowed/secret/file" false EACCES).
  - discriminate.
  - left. vm_compute. reflexivity.
Defined.

(** X7.  The validator writes a console line exactly when the entry is a
    symbolic link whose real path is accepted; a link that is refused, and
    every other outcome, leaves no line. *)
Theorem symlink_is_logged_only_when_accepted (proc : Process)
    (st : PolicyState) (fs : FileSystem) (p : string)
    (requireExists : bool) :
  consoleLines
    (trace (Security.validatePathWithSymlinkCheck proc st fs p
              requireExists))
  = match lstatSync fs (Security.resolve proc p),
          realpathSync fs (Security.resolve proc p) with
    | inr stats, inr real =>
        if isSymbolicLink stats && Security.isPathAllowed proc st real
        then [(ConsoleLog,
               "[Security] Symlink detected: " +:+ Security.resolve proc p
               +:+ " -> " +:+ real)]
        else []
    | _, _ => []
    end.
Proof.
  rewrite validatePathWithSymlinkCheck_run. cbv zeta.
  destruct (lstatSync fs (Security.resolve proc p)) as [[]|stats];
    destruct requireExists;
    destruct (realpathSync fs (Security.resolve proc p)) as [[]|real];
    try reflexivity.
  all: destruct (Security.isPathAllowed proc st real);
    destruct (isSymbolicLink stats); reflexivity.
Qed.

(** X8.  A dangling symbolic link (the link exists, its target does not)
    is treated as a path that does not exist: with [requireExists] true
    the validator throws [ENOENT]; with [requireExists] false it decides
    on the parent directory alone and returns the link's own path under
    the real parent, the link's target being nowhere examined. *)
Theorem dangling_symlink_is_validated_by_its_parent (proc : Process)
    (st : PolicyState) (fs : FileSystem) (p : string) (stats : Stats) :
  lstatSync fs (Security.resolve proc p) = inr stats ->
  realpathSync fs (Security.resolve proc p) = inl ENOENT ->
  outcome (Security.validatePathWithSymlinkCheck proc st fs p true)
  = Throw (ErrnoException ENOENT)
  /\ outcome (Security.validatePathWithSymlinkCheck proc st fs p false)
     = match realpathSync fs
               (PosixPath.dirname (Security.resolve proc p)) with
       | inr realParent =>
           if Security.isPathAllowed proc st realParent
           then Ok (PosixPath.join realParent
                      (PosixPath.basename (Security.resolve proc p)))
           else Throw (PathNotAllowedError
                         (p +:+ " (parent resolves to " +:+ realParent
                          +:+ ")"))
       | inl ENOENT => Security.validatePath proc st p
       | inl code => Throw (ErrnoException code)
       end.
Proof.
  intros Hl Hr. rewrite !validatePathWithSymlinkCheck_run. cbv zeta.
  rewrite Hl, Hr. split; reflexivity.
Qed.

Lemma dangling_symlink_is_validated_by_its_parent_witness :
  realpathSync DanglingDemo.fs "/outside/target" = inl ENOENT
  /\ outcome (Security.validatePathWithSymlinkCheck Demo.proc Demo.st
                DanglingDemo.fs "/allowed/out" false)
     = Ok "/allowed/out".
Proof.
  split; [vm_compute; reflexivity|].
  destruct (dangling_symlink_is_validated_by_its_parent Demo.proc Demo.st
              DanglingDemo.fs "/allowed/out" {| isSymbolicLink := true |})
    as [_ H].
  - vm_compute. reflexivity.
  - vm_compute. reflexivity.
  - rewrite H. vm_compute. reflexivity.
Defined.

(** ** The path-parameter middleware *)

Lemma reverse_append_char (n : string) (c : ascii) :
  JsString.reverse (n +:+ String c "") = String c (JsString.reverse n).
Proof.
  unfold JsString.reverse.
  assert (E : list_ascii_of_string (n +:+ String c "")
              = list_ascii_of_string n ++ [c]).
  { induction n as [|a n IH]; [reflexivity|].
    change (String a n +:+ String c "") with (String a (n +:+ String c "")).
    cbn [list_ascii_of_string]. rewrite IH. reflexivity. }
  rewrite E, rev_app_distr. reflexivity.
Qed.

Lemma substring_prefix (n rest : string) :
  String.substring 0 (String.length n) (n +:+ rest) = n.
Proof.
  induction n as [|a n IH]; [destruct rest; reflexivity|].
  change (String a n +:+ rest) with (String a (n +:+ rest)).
  cbn [String.length String.substring]. rewrite IH. reflexivity.
Qed.

Lemma length_append (a b : string) :
  String.length (a +:+ b) = (String.length a + String.length b)%nat.
Proof.
  induction a as [|c a IH]; [reflexivity|].
  change (String c a +:+ b) with (String c (a +:+ b)).
  cbn [String.length]. rewrite IH. reflexivity.
Qed.

Lemma dropEnd_append (n suffix : string) :
  JsString.dropEnd (String.length suffix) (n +:+ suffix) = n.
Proof.
  unfold JsString.dropEnd. rewrite length_append.
  replace (String.length n + String.length suffix - String.length suffix)%nat
    with (String.length n) by lia.
  apply substring_prefix.
Qed.

Lemma endsWith_question (n : string) :
  JsString.endsWith (n +:+ "?") "?" = true.
Proof.
  unfold JsString.endsWith. rewrite reverse_append_char. reflexivity.
Qed.

Lemma endsWith_brackets (n : string) :
  JsString.endsWith (n +:+ "[]") "?" = false
  /\ JsString.endsWith (n +:+ "[]") "[]" = true.
Proof.
  unfold JsString.endsWith.
  assert (E : n +:+ "[]" = (n +:+ "[") +:+ "]").
  { induction n as [|a n IH]; [reflexivity|].
    change (String a n +:+ "[]") with (String a (n +:+ "[]")).
    rewrite IH. reflexivity. }
  rewrite E, !reverse_append_char. split; reflexivity.
Qed.

(** X9.  The [?] suffix changes nothing: for a name [n] without suffix,
    the parameter [n?] is checked exactly as the parameter [n] is, so a
    parameter is optional whether or not it is marked so. *)
Theorem optional_suffix_changes_nothing (proc : Process) (st : PolicyState)
    (body : gmap string ValidatePaths.JsValue) (n : string) :
  JsString.endsWith n "?" = false ->
  JsString.endsWith n "[]" = false ->
  ValidatePaths.checkParam proc st body (n +:+ "?")
  = ValidatePaths.checkParam proc st body n
  /\ forall rest,
       ValidatePaths.validatePathParams proc st ((n +:+ "?") :: rest) body
       = ValidatePaths.validatePathParams proc st (n :: rest) body.
Proof.
  intros H1 H2.
  assert (E : ValidatePaths.checkParam proc st body (n +:+ "?")
              = ValidatePaths.checkParam proc st body n).
  { unfold ValidatePaths.checkParam.
    rewrite endsWith_question, H1, H2.
    change 1%nat with (String.length "?"). rewrite dropEnd_append.
    reflexivity. }
  split; [exact E|]. intros rest.
  unfold ValidatePaths.validatePathParams.
  cbn [ValidatePaths.checkParams]. rewrite E. reflexivity.
Qed.

Lemma optional_suffix_changes_nothing_witness :
  ValidatePaths.checkParam Demo.proc Demo.st
    {[ "workingDirectory" := ValidatePaths.VString "/etc" ]}
    "workingDirectory?"
  = Throw (PathNotAllowedError "/etc").
Proof.
  destruct (optional_suffix_changes_nothing Demo.proc Demo.st
              {[ "workingDirectory" := ValidatePaths.VString "/etc" ]}
              "workingDirectory") as [H _].
  - reflexivity.
  - reflexivity.
  - change ("workingDirectory" +:+ "?") with "workingDirectory?" in H.
    rewrite H. vm_compute. reflexivity.
Defined.

Lemma checkValue_allowed (proc : Process) (st : PolicyState)
    (value : ValidatePaths.JsValue) (paramName : string) :
  ValidatePaths.checkValue proc st value paramName = Ok tt <->
  isAllowedPathValue proc st value = true.
Proof.
  unfold ValidatePaths.checkValue, isAllowedPathValue.
  destruct value as [| | | |s| |];
    cbn [ValidatePaths.assertValidPathString andThen];
    try (split; discriminate).
  rewrite validatePath_cases.
  destruct (Security.isPathAllowed proc st (Security.resolve proc s));
    cbn [andThen]; split; congruence.
Qed.

(** X10.  An array parameter [n[]] passes when the body lacks [n] or
    holds [undefined] or [null], is refused with
    [InvalidPathTypeError] when [n] is anything but an array, and for an
    array passes exactly when every element is a string that
    [validatePath] accepts (the empty array passes); otherwise the error
    is the one of the first offending element, named [n[i]] with [i] its
    index. *)
Theorem array_parameter_checks_every_element (proc : Process)
    (st : PolicyState) (body : gmap string ValidatePaths.JsValue)
    (n : string) :
  ValidatePaths.checkParam proc st body (n +:+ "[]")
  = match ValidatePaths.property body n with
    | ValidatePaths.VUndefined | ValidatePaths.VNull => Ok tt
    | ValidatePaths.VArray items => ValidatePaths.checkItems proc st n 0 items
    | value => Throw (InvalidPathTypeError n "array"
                        (ValidatePaths.typeof value))
    end
  /\ (forall items i,
        ValidatePaths.checkItems proc st n i items = Ok tt <->
        forallb (isAllowedPathValue proc st) items = true)
  /\ (forall good bad rest i,
        forallb (isAllowedPathValue proc st) good = true ->
        isAllowedPathValue proc st bad = false ->
        ValidatePaths.checkItems proc st n i (good ++ bad :: rest)
        = ValidatePaths.checkValue proc st bad
            (n +:+ "[" +:+ pretty (i + length good)%nat +:+ "]")).
Proof.
  split; [|split].
  - unfold ValidatePaths.checkParam.
    destruct (endsWith_brackets n) as [E1 E2]. rewrite E1, E2.
    change 2%nat with (String.length "[]"). rewrite dropEnd_append.
    destruct (ValidatePaths.property body n); reflexivity.
  - intros items. induction items as [|v items IH]; intros i.
    + split; reflexivity.
    + cbn [ValidatePaths.checkItems forallb].
      destruct (ValidatePaths.checkValue proc st v
                  (n +:+ "[" +:+ pretty i +:+ "]")) as [[]|e] eqn:E.
      * apply checkValue_allowed in E. rewrite E. cbn [andThen andb].
        apply IH.
      * assert (F : isAllowedPathValue proc st v = false).
        { destruct (isAllowedPathValue proc st v) eqn:F; [|reflexivity].
          apply (checkValue_allowed proc st v
                   (n +:+ "[" +:+ pretty i +:+ "]")) in F. congruence. }
        rewrite F. cbn [andThen andb]. split; discriminate.
  - intros good. induction good as [|v good IH]; intros bad rest i Hg Hb.
    + cbn [app ValidatePaths.checkItems length].
      rewrite Nat.add_0_r.
      destruct (ValidatePaths.checkValue proc st bad
                  (n +:+ "[" +:+ pretty i +:+ "]")) as [[]|e] eqn:E;
        [|reflexivity].
      apply checkValue_allowed in E. congruence.
    + cbn [forallb] in Hg. apply andb_prop in Hg as [Hv Hg].
      cbn [app ValidatePaths.checkItems length].
      apply (checkValue_allowed proc st v
               (n +:+ "[" +:+ pretty i +:+ "]")) in Hv.
      rewrite Hv. cbn [andThen]. rewrite (IH bad rest (S i) Hg Hb).
      replace (S i + length good)%nat with (i + S (length good))%nat by lia.
      reflexivity.
Qed.

Lemma checkValue_throws (proc : Process) (st : PolicyState)
    (value : ValidatePaths.JsValue) (paramName : string) (e : Error) :
  ValidatePaths.checkValue proc st value paramName = Throw e ->
  isENOENT e = false /\ forall code, e <> ErrnoException code.
Proof.
  unfold ValidatePaths.checkValue.
  destruct value as [| | | |s| |];
    cbn [ValidatePaths.assertValidPathString andThen];
    try (intros H; inversion H; split; [reflexivity | discriminate]).
  rewrite validatePath_cases.
  destruct (Security.isPathAllowed proc st (Security.resolve proc s));
    cbn [andThen]; intros H; inversion H;
    split; [reflexivity | discriminate].
Qed.

Lemma checkParam_throws (proc : Process) (st : PolicyState)
    (body : gmap string ValidatePaths.JsValue) (paramName : string)
    (e : Error) :
  ValidatePaths.checkParam proc st body paramName = Throw e ->
  forall code, e <> ErrnoException code.
Proof.
  unfold ValidatePaths.checkParam.
  assert (Hitems : forall name items i,
             ValidatePaths.checkItems proc st name i items = Throw e ->
             forall code, e <> ErrnoException code).
  { intros name items. induction items as [|v items IH]; intros i;
      cbn [ValidatePaths.checkItems]; [discriminate|].
    destruct (ValidatePaths.checkValue proc st v _) as [[]|e'] eqn:E;
      cbn [andThen].
    - apply IH.
    - intros H. inversion H; subst.
      apply checkValue_throws in E. apply E. }
  destruct (JsString.endsWith paramName "?").
  - destruct (ValidatePaths.present _); [|discriminate].
    intros H. apply checkValue_throws in H. apply H.
  - destruct (JsString.endsWith paramName "[]").
    + destruct (ValidatePaths.property body _);
        try discriminate;
        try (intros H; inversion H; discriminate).
      apply Hitems.
    + destruct (ValidatePaths.present _); [|discriminate].
      intros H. apply checkValue_throws in H. apply H.
Qed.

(** X11.  The middleware answers in one of three ways and never rethrows:
    it calls [next()] exactly when every parameter passes its check, and
    otherwise responds 403 with the message of a [PathNotAllowedError] or
    400 with the message of an [InvalidPathTypeError]; the parameters are
    checked from left to right and the first failure is the response. *)
Theorem validatePathParams_responses (proc : Process) (st : PolicyState)
    (body : gmap string ValidatePaths.JsValue) (paramNames : list string) :
  match ValidatePaths.validatePathParams proc st paramNames body with
  | ValidatePaths.Next =>
      Forall (fun n => ValidatePaths.checkParam proc st body n = Ok tt)
        paramNames
  | ValidatePaths.Respond status message =>
      (status = 403 /\
       exists p, message = errorMessage (PathNotAllowedError p))
      \/ (status = 400 /\
          exists n expected actual,
            message = errorMessage (InvalidPathTypeError n expected actual))
  | ValidatePaths.Rethrow _ => False
  end
  /\ (Forall (fun n => ValidatePaths.checkParam proc st body n = Ok tt)
        paramNames ->
      ValidatePaths.validatePathParams proc st paramNames body
      = ValidatePaths.Next)
  /\ (forall more,
        ValidatePaths.validatePathParams proc st (paramNames ++ more) body
        = match ValidatePaths.validatePathParams proc st paramNames body
          with
          | ValidatePaths.Next =>
              ValidatePaths.validatePathParams proc st more body
          | response => response
          end).
Proof.
  unfold ValidatePaths.validatePathParams.
  induction paramNames as [|n names IH].
  - cbn [ValidatePaths.checkParams app].
    split; [constructor | split; [reflexivity|]].
    intros more. destruct (ValidatePaths.checkParams proc st body more)
      as [[]|[]]; reflexivity.
  - cbn [ValidatePaths.checkParams app].
    destruct (ValidatePaths.checkParam proc st body n) as [[]|e] eqn:E;
      cbn [andThen].
    + destruct IH as (IH1 & IH2 & IH3). split; [|split].
      * destruct (ValidatePaths.checkParams proc st body names)
          as [[]|[]]; try exact IH1. constructor; assumption.
      * intros H. inversion H; subst. apply IH2. assumption.
      * exact IH3.
    + pose proof (checkParam_throws _ _ _ _ _ E) as Hne.
      split; [|split].
      * destruct e; [left | destruct (Hne code eq_refl) | right]; eauto 6.
      * intros H. inversion H; subst. congruence.
      * intros more. destruct e; reflexivity.
Qed.

(** ** The rate limiter *)

Module RateLimiterFacts.
Import RateLimiter.

Lemma recordFailures_reaches_threshold (config : RateLimiterConfig)
    (key : string) (times : list Z) :
  forall (attempts : gmap string AttemptRecord) (record : AttemptRecord)
         (t : Z),
    attempts !! key = Some record ->
    blockedUntil record = None ->
    Forall (fun now => (now - firstAttempt record <= windowMs config)%Z)
      (times ++ [t]) ->
    (count record + Z.of_nat (length (times ++ [t])) = maxAttempts config)%Z ->
    recordFailures config (times ++ [t]) key attempts
    = (repeat false (length times) ++ [true],
       <[key := {| count := maxAttempts config;
                   firstAttempt := firstAttempt record;
                   blockedUntil := Some (t + blockDurationMs config)%Z |}]>
         attempts).
Proof.
  induction times as [|now times IH]; intros attempts record t Hk Hb Hw Hc.
  - cbn [app recordFailures length repeat] in *.
    inversion Hw as [|? ? Hnow _]; subst.
    unfold recordFailure. rewrite Hk.
    assert (E1 : (windowMs config <? t - firstAttempt record)%Z = false)
      by (apply Z.ltb_ge; lia).
    assert (E2 : (maxAttempts config <=? count record + 1)%Z = true)
      by (apply Z.leb_le; lia).
    rewrite E1, E2.
    replace (count record + 1)%Z with (maxAttempts config) by lia.
    reflexivity.
  - cbn [app recordFailures length repeat] in *.
    inversion Hw as [|? ? Hnow Hrest]; subst.
    rewrite length_app in Hc. cbn [length] in Hc.
    unfold recordFailure at 1. rewrite Hk.
    assert (E1 : (windowMs config <? now - firstAttempt record)%Z = false)
      by (apply Z.ltb_ge; lia).
    assert (E2 : (maxAttempts config <=? count record + 1)%Z = false)
      by (apply Z.leb_gt; lia).
    rewrite E1, E2, Hb.
    rewrite (IH _ {| count := count record + 1;
                     firstAttempt := firstAttempt record;
                     blockedUntil := None |} t).
    + cbn [firstAttempt]. rewrite insert_insert_eq. reflexivity.
    + apply lookup_insert_eq.
    + reflexivity.
    + exact Hrest.
    + cbn [count]. rewrite length_app. cbn [length]. lia.
Qed.

End RateLimiterFacts.

(** X12.  Lockout.  From a key with no record, [maxAttempts] failures (at
    least two) whose times all lie within [windowMs] of the first one
    leave every call of [recordFailure] but the last answering false and
    the last answering true; the key is then blocked until
    [blockDurationMs] after the last failure, and no other key is
    touched. *)
Theorem failures_up_to_the_threshold_block (config : RateLimiter.RateLimiterConfig)
    (key : string) (attempts : gmap string RateLimiter.AttemptRecord)
    (first last : Z) (between : list Z) :
  attempts !! key = None ->
  (Z.of_nat (length between) + 2 = RateLimiter.maxAttempts config)%Z ->
  Forall (fun now => (now - first <= RateLimiter.windowMs config)%Z)
    (between ++ [last]) ->
  (0 <= last)%Z ->
  (0 < RateLimiter.blockDurationMs config)%Z ->
  let '(answers, attempts') :=
    RateLimiter.recordFailures config (first :: between ++ [last]) key
      attempts in
  answers = repeat false (S (length between)) ++ [true]
  /\ (forall now,
        fst (RateLimiter.isBlocked now key attempts')
        = (now <? last + RateLimiter.blockDurationMs config)%Z)
  /\ (forall other, other <> key -> attempts' !! other = attempts !! other).
Proof.
  intros Hk Hn Hw Hlast Hblock.
  cbn [RateLimiter.recordFailures].
  unfold RateLimiter.recordFailure at 1. rewrite Hk.
  rewrite (RateLimiterFacts.recordFailures_reaches_threshold config key
             between _ (RateLimiter.firstFailure first) last).
  - split; [reflexivity|]. split.
    + intros now. unfold RateLimiter.isBlocked.
      rewrite lookup_insert_eq.
      cbn [RateLimiter.blockedUntil RateLimiter.blockSet].
      assert (E : (last + RateLimiter.blockDurationMs config =? 0)%Z
                  = false) by (apply Z.eqb_neq; lia).
      rewrite E.
      destruct (now <? last + RateLimiter.blockDurationMs config)%Z;
        reflexivity.
    + intros other Hne. rewrite !lookup_insert_ne by congruence.
      reflexivity.
  - apply lookup_insert_eq.
  - reflexivity.
  - exact Hw.
  - cbn [RateLimiter.count RateLimiter.firstFailure].
    rewrite length_app. cbn [length]. lia.
Qed.

Lemma failures_up_to_the_threshold_block_witness :
  let '(answers, attempts') :=
    RateLimiter.recordFailures RateLimiter.DEFAULT_CONFIG
      (0 :: [10; 20; 30] ++ [40])%Z "192.168.1.1" ∅ in
  answers = repeat false 4 ++ [true]
  /\ (forall now,
        fst (RateLimiter.isBlocked now "192.168.1.1" attempts')
        = (now <? 40 + 900000)%Z)
  /\ (forall other, other <> "192.168.1.1" ->
                    attempts' !! other
                    = (∅ : gmap string RateLimiter.AttemptRecord) !! other).
Proof.
  apply (failures_up_to_the_threshold_block RateLimiter.DEFAULT_CONFIG
           "192.168.1.1" ∅ 0 40 [10; 20; 30]%Z).
  - reflexivity.
  - reflexivity.
  - repeat constructor; vm_compute; discriminate.
  - vm_compute. discriminate.
  - reflexivity.
Defined.

(** X13.  The first failure of a key is never the blocking one: whatever
    [maxAttempts] is, also 1 or 0, [recordFailure] on a key without a
    record answers false and leaves the key unblocked with a count of
    one; with such a configuration it is the second failure within the
    window that blocks. *)
Theorem first_failure_never_blocks (config : RateLimiter.RateLimiterConfig)
    (key : string) (attempts : gmap string RateLimiter.AttemptRecord)
    (now : Z) :
  attempts !! key = None ->
  let '(blocked, attempts') :=
    RateLimiter.recordFailure config now key attempts in
  blocked = false
  /\ (forall later, fst (RateLimiter.isBlocked later key attempts') = false)
  /\ attempts' !! key = Some (RateLimiter.firstFailure now)
  /\ (forall next,
        (RateLimiter.maxAttempts config <= 2)%Z ->
        (next - now <= RateLimiter.windowMs config)%Z ->
        fst (RateLimiter.recordFailure config next key attempts') = true).
Proof.
  intros Hk. unfold RateLimiter.recordFailure at 1. rewrite Hk.
  split; [reflexivity|]. split; [|split].
  - intros later. unfold RateLimiter.isBlocked.
    rewrite lookup_insert_eq. reflexivity.
  - apply lookup_insert_eq.
  - intros next Hmax Hwin. unfold RateLimiter.recordFailure.
    rewrite lookup_insert_eq.
    cbn [RateLimiter.firstFailure RateLimiter.firstAttempt
         RateLimiter.count].
    assert (E1 : (RateLimiter.windowMs config <? next - now)%Z = false)
      by (apply Z.ltb_ge; lia).
    assert (E2 : (RateLimiter.maxAttempts config <=? 1 + 1)%Z = true)
      by (apply Z.leb_le; lia).
    rewrite E1, E2. reflexivity.
Qed.

Lemma first_failure_never_blocks_witness :
  let config := {| RateLimiter.maxAttempts := 1;
                   RateLimiter.windowMs := 60000;
                   RateLimiter.blockDurationMs := 60000 |} in
  fst (RateLimiter.recordFailure config 5 "10.0.0.1" ∅) = false
  /\ fst (RateLimiter.isBlocked 6 "10.0.0.1"
            (snd (RateLimiter.recordFailure config 5 "10.0.0.1" ∅)))
     = false.
Proof.
  cbv zeta.
  pose proof (first_failure_never_blocks
                {| RateLimiter.maxAttempts := 1;
                   RateLimiter.windowMs := 60000;
                   RateLimiter.blockDurationMs := 60000 |}
                "10.0.0.1" ∅ 5 eq_refl) as H.
  destruct (RateLimiter.recordFailure _ 5 "10.0.0.1" ∅) as [b a].
  destruct H as (H1 & H2 & _). split; [exact H1 | apply H2].
Defined.

(** X14.  [isBlocked] and [getBlockTimeRemaining] agree: a key is blocked
    at a time exactly when its remaining block time then is positive.
    [isBlocked] changes the map only by forgetting the key it is asked
    about, and only when that key's block has run out, after which the
    key has all its attempts again. *)
Theorem isBlocked_agrees_with_remaining_time
    (config : RateLimiter.RateLimiterConfig) (now : Z) (key : string)
    (attempts : gmap string RateLimiter.AttemptRecord) :
  let '(blocked, attempts') := RateLimiter.isBlocked now key attempts in
  blocked = (0 <? RateLimiter.getBlockTimeRemaining now key attempts)%Z
  /\ (forall other, other <> key -> attempts' !! other = attempts !! other)
  /\ (attempts' = attempts
      \/ (attempts' = delete key attempts
          /\ blocked = false
          /\ RateLimiter.getAttemptsRemaining config now key attempts'
             = RateLimiter.maxAttempts config)).
Proof.
  unfold RateLimiter.isBlocked, RateLimiter.getBlockTimeRemaining.
  destruct (attempts !! key) as [record|] eqn:Hk; [|auto].
  destruct (RateLimiter.blockSet (RateLimiter.blockedUntil record))
    as [b|]; [|auto].
  destruct (now <? b)%Z eqn:E.
  - apply Z.ltb_lt in E.
    assert (E' : (0 <? b - now)%Z = true) by (apply Z.ltb_lt; lia).
    rewrite E'. split; [symmetry; apply Z.ltb_lt; lia | auto].
  - apply Z.ltb_ge in E.
    assert (E' : (0 <? b - now)%Z = false) by (apply Z.ltb_ge; lia).
    rewrite E'. split; [reflexivity|]. split.
    + intros other Hne. apply lookup_delete_ne. congruence.
    + right. split; [reflexivity|]. split; [reflexivity|].
      unfold RateLimiter.getAttemptsRemaining.
      rewrite lookup_delete_eq. reflexivity.
Qed.

(** X15.  The records of the limiter stay well formed (a count of at least
    one, a block only from the threshold on) under [recordFailure],
    [isBlocked], [reset] and [cleanup], starting from the empty map; and
    on a well-formed map with a non-negative [maxAttempts],
    [getAttemptsRemaining] lies between 0 and [maxAttempts] and is 0 for
    a key that is blocked within its window. *)
Theorem limiter_records_stay_well_formed
    (config : RateLimiter.RateLimiterConfig)
    (attempts : gmap string RateLimiter.AttemptRecord) :
  RateLimiter.wellFormed config attempts ->
  (forall now key,
      RateLimiter.wellFormed config
        (snd (RateLimiter.recordFailure config now key attempts))
      /\ RateLimiter.wellFormed config
           (snd (RateLimiter.isBlocked now key attempts))
      /\ RateLimiter.wellFormed config (RateLimiter.reset key attempts)
      /\ RateLimiter.wellFormed config
           (RateLimiter.cleanup config now attempts))
  /\ (forall now key,
        (0 <= RateLimiter.maxAttempts config)%Z ->
        (0 <= RateLimiter.getAttemptsRemaining config now key attempts
         <= RateLimiter.maxAttempts config)%Z
        /\ (fst (RateLimiter.isBlocked now key attempts) = true ->
            (forall record, attempts !! key = Some record ->
               (now - RateLimiter.firstAttempt record
                <= RateLimiter.windowMs config)%Z) ->
            RateLimiter.getAttemptsRemaining config now key attempts
            = 0%Z)).
Proof.
  intros Hwf. split.
  - intros now key.
    assert (Hdel : forall k, RateLimiter.wellFormed config (delete k attempts)).
    { intros k k' r Hr. apply lookup_delete_Some in Hr as [_ Hr].
      exact (Hwf k' r Hr). }
    assert (Hfirst : forall k t,
               RateLimiter.wellFormed config
                 (<[k := RateLimiter.firstFailure t]> attempts)).
    { intros k t k' r Hr. apply lookup_insert_Some in Hr
        as [[_ <-] | [_ Hr]]; [|exact (Hwf k' r Hr)].
      cbn. split; [lia | discriminate]. }
    split; [|split; [|split]].
    + unfold RateLimiter.recordFailure.
      destruct (attempts !! key) as [record|] eqn:Hk;
        [|apply Hfirst].
      destruct (Hwf key record Hk) as [Hc Hb].
      destruct (RateLimiter.windowMs config
                <? now - RateLimiter.firstAttempt record)%Z;
        [apply Hfirst|].
      destruct (RateLimiter.maxAttempts config
                <=? RateLimiter.count record + 1)%Z eqn:E;
        intros k' r Hr; cbn [snd] in Hr;
        apply lookup_insert_Some in Hr as [[_ <-] | [_ Hr]];
        try exact (Hwf k' r Hr); cbn.
      * apply Z.leb_le in E. split; [lia | intros; lia].
      * split; [lia|]. intros b Hb'. specialize (Hb b Hb'). lia.
    + unfold RateLimiter.isBlocked.
      destruct (attempts !! key) as [record|]; [|exact Hwf].
      destruct (RateLimiter.blockSet _) as [b|]; [|exact Hwf].
      destruct (now <? b)%Z; [exact Hwf | apply Hdel].
    + apply Hdel.
    + intros k' r Hr. unfold RateLimiter.cleanup in Hr.
      apply map_lookup_filter_Some in Hr as [Hr _]. exact (Hwf k' r Hr).
  - intros now key Hmax. unfold RateLimiter.getAttemptsRemaining,
      RateLimiter.isBlocked.
    destruct (attempts !! key) as [record|] eqn:Hk.
    + destruct (Hwf key record Hk) as [Hc Hb]. split.
      * destruct (RateLimiter.windowMs config
                  <? now - RateLimiter.firstAttempt record)%Z; lia.
      * intros Hblocked Hwin. specialize (Hwin record eq_refl).
        assert (E : (RateLimiter.windowMs config
                     <? now - RateLimiter.firstAttempt record)%Z = false)
          by (apply Z.ltb_ge; lia).
        rewrite E.
        destruct (RateLimiter.blockedUntil record) as [b|] eqn:Hbu;
          [|discriminate Hblocked].
        specialize (Hb b eq_refl). lia.
    + split; [lia | discriminate].
Qed.

Lemma limiter_records_stay_well_formed_witness :
  let blocked : gmap string RateLimiter.AttemptRecord :=
    {[ "10.0.0.1" := {| RateLimiter.count := 5;
                        RateLimiter.firstAttempt := 0;
                        RateLimiter.blockedUntil := Some 900040%Z |} ]} in
  snd (RateLimiter.recordFailures RateLimiter.DEFAULT_CONFIG
         [0; 10; 20; 30; 40]%Z "10.0.0.1" ∅) = blocked
  /\ RateLimiter.wellFormed RateLimiter.DEFAULT_CONFIG
       (snd (RateLimiter.recordFailure RateLimiter.DEFAULT_CONFIG 50
               "10.0.0.1" blocked))
  /\ RateLimiter.getAttemptsRemaining RateLimiter.DEFAULT_CONFIG 50
       "10.0.0.1" blocked = 0%Z.
Proof.
  cbv zeta. split; [vm_compute; reflexivity|].
  destruct (limiter_records_stay_well_formed RateLimiter.DEFAULT_CONFIG
              {[ "10.0.0.1" := {| RateLimiter.count := 5;
                                  RateLimiter.firstAttempt := 0;
                                  RateLimiter.blockedUntil :=
                                    Some 900040%Z |} ]}) as [H1 H2].
  - intros key record H. apply lookup_singleton_Some in H as [_ <-].
    cbn. split; [lia|]. intros b _. lia.
  - split; [apply (H1 50%Z "10.0.0.1")|].
    apply (H2 50%Z "10.0.0.1").
    + vm_compute. discriminate.
    + vm_compute. reflexivity.
    + intros record H. apply lookup_singleton_Some in H as [_ <-].
      vm_compute. discriminate.
Defined.

Lemma cleanup_lookup (config : RateLimiter.RateLimiterConfig) (now : Z)
    (attempts : gmap string RateLimiter.AttemptRecord) (key : string) :
  RateLimiter.cleanup config now attempts !! key
  = match attempts !! key with
    | Some record =>
        if RateLimiter.expired config now record then None else Some record
    | None => None
    end.
Proof.
  unfold RateLimiter.cleanup. rewrite map_lookup_filter.
  destruct (attempts !! key) as [record|]; [|reflexivity].
  cbn. destruct (RateLimiter.expired config now record) eqn:E.
  - rewrite option_guard_False; [reflexivity|]. cbn. congruence.
  - rewrite option_guard_True; [reflexivity|]. cbn. reflexivity.
Qed.

(** X16.  [cleanup] drops exactly the records whose block has run out and
    the unblocked records whose window has passed.  It never lifts a
    running block: at the time of the cleanup [isBlocked] and
    [getBlockTimeRemaining] answer for every key what they answered
    before; and cleaning twice is cleaning once. *)
Theorem cleanup_keeps_running_blocks
    (config : RateLimiter.RateLimiterConfig) (now : Z)
    (attempts : gmap string RateLimiter.AttemptRecord) :
  (forall key,
      RateLimiter.cleanup config now attempts !! key
      = match attempts !! key with
        | Some record =>
            if RateLimiter.expired config now record
            then None else Some record
        | None => None
        end)
  /\ (forall key,
        fst (RateLimiter.isBlocked now key
               (RateLimiter.cleanup config now attempts))
        = fst (RateLimiter.isBlocked now key attempts)
        /\ RateLimiter.getBlockTimeRemaining now key
             (RateLimiter.cleanup config now attempts)
           = RateLimiter.getBlockTimeRemaining now key attempts)
  /\ RateLimiter.cleanup config now
       (RateLimiter.cleanup config now attempts)
     = RateLimiter.cleanup config now attempts.
Proof.
  split; [apply cleanup_lookup | split].
  - intros key. unfold RateLimiter.isBlocked,
      RateLimiter.getBlockTimeRemaining.
    rewrite cleanup_lookup.
    destruct (attempts !! key) as [record|]; [|auto].
    unfold RateLimiter.expired.
    destruct (RateLimiter.blockSet (RateLimiter.blockedUntil record))
      as [b|] eqn:Hb.
    + destruct (now <? b)%Z eqn:E; cbn [negb].
      * rewrite Hb, E. auto.
      * apply Z.ltb_ge in E.
        assert (E' : (0 <? b - now)%Z = false) by (apply Z.ltb_ge; lia).
        rewrite E'. auto.
    + destruct (RateLimiter.windowMs config
                <? now - RateLimiter.firstAttempt record)%Z;
        [auto | rewrite Hb; auto].
  - apply map_eq. intros key. rewrite !cleanup_lookup.
    destruct (attempts !! key) as [record|]; [|reflexivity].
    destruct (RateLimiter.expired config now record) eqn:E;
      [reflexivity | rewrite E; reflexivity].
Qed.

(** X17.  A block can outlast the window of the failures that caused it.
    While it does, the key is blocked although [getAttemptsRemaining]
    reports all attempts available, and a failure recorded then starts a
    new window and lifts the block. *)
Theorem block_outlasting_its_window
    (config : RateLimiter.RateLimiterConfig) (now : Z) (key : string)
    (attempts : gmap string RateLimiter.AttemptRecord)
    (record : RateLimiter.AttemptRecord) (b : Z) :
  attempts !! key = Some record ->
  RateLimiter.blockSet (RateLimiter.blockedUntil record) = Some b ->
  (now < b)%Z ->
  (RateLimiter.windowMs config < now - RateLimiter.firstAttempt record)%Z ->
  fst (RateLimiter.isBlocked now key attempts) = true
  /\ RateLimiter.getAttemptsRemaining config now key attempts
     = RateLimiter.maxAttempts config
  /\ fst (RateLimiter.recordFailure config now key attempts) = false
  /\ forall later,
       fst (RateLimiter.isBlocked later key
              (snd (RateLimiter.recordFailure config now key attempts)))
       = false.
Proof.
  intros Hk Hb Hnow Hwin.
  assert (E1 : (now <? b)%Z = true) by (apply Z.ltb_lt; lia).
  assert (E2 : (RateLimiter.windowMs config
                <? now - RateLimiter.firstAttempt record)%Z = true)
    by (apply Z.ltb_lt; lia).
  unfold RateLimiter.isBlocked, RateLimiter.getAttemptsRemaining,
    RateLimiter.recordFailure.
  rewrite Hk, Hb, E1, E2. cbn [fst snd].
  repeat split. intros later. rewrite lookup_insert_eq. reflexivity.
Qed.

Lemma block_outlasting_its_window_witness :
  let attempts :=
    snd (RateLimiter.recordFailures RateLimiter.DEFAULT_CONFIG
           [0; 10; 20; 30; 40]%Z "10.0.0.1" ∅) in
  fst (RateLimiter.isBlocked 900001 "10.0.0.1" attempts) = true
  /\ RateLimiter.getAttemptsRemaining RateLimiter.DEFAULT_CONFIG 900001
       "10.0.0.1" attempts = 5%Z
  /\ fst (RateLimiter.isBlocked 900002 "10.0.0.1"
            (snd (RateLimiter.recordFailure RateLimiter.DEFAULT_CONFIG
                    900001 "10.0.0.1" attempts))) = false.
Proof.
  cbv zeta.
  destruct (block_outlasting_its_window RateLimiter.DEFAULT_CONFIG 900001
              "10.0.0.1"
              (snd (RateLimiter.recordFailures RateLimiter.DEFAULT_CONFIG
                      [0; 10; 20; 30; 40]%Z "10.0.0.1" ∅))
              {| RateLimiter.count := 5;
                 RateLimiter.firstAttempt := 0;
                 RateLimiter.blockedUntil := Some 900040%Z |} 900040)
    as (H1 & H2 & _ & H4).
  - vm_compute. reflexivity.
  - reflexivity.
  - reflexivity.
  - vm_compute. reflexivity.
  - split; [exact H1 | split; [exact H2 | apply H4]].
Defined.

(** ** The API-key middleware *)

Lemma secureCompare_iff (a b : string) :
  Auth.secureCompare a b = true <-> a = b.
Proof.
  unfold Auth.secureCompare, Auth.timingSafeEqual.
  destruct (Nat.eqb (String.length a) (String.length b)) eqn:E; cbn [negb].
  - apply String.eqb_eq.
  - split; [discriminate|]. intros ->.
    rewrite Nat.eqb_refl in E. discriminate.
Qed.

Lemma truthy_iff (s : string) : JsString.truthy s = true <-> s <> "".
Proof. destruct s; cbn; split; congruence. Qed.

Lemma envTruthy_Some (proc : Process) (name key : string) :
  Security.envTruthy proc name = Some key ->
  env proc !! name = Some key /\ key <> "".
Proof.
  unfold Security.envTruthy. destruct (env proc !! name) as [v|];
    [|discriminate].
  destruct (JsString.truthy v) eqn:E; [|discriminate].
  intros H. inversion H; subst. split; [reflexivity|].
  apply truthy_iff. exact E.
Qed.

(** X18.  The middleware lets a request through only when no key is
    configured, or when the request carries exactly the configured key
    and its client is not blocked; in the second case the client's
    failures are forgotten.  With a key configured, a request without a
    key, with an empty key or with any other key never reaches
    [next()]. *)
Theorem authMiddleware_passes_only_the_configured_key
    (trim : string -> string) (proc : Process) (now1 now2 : Z)
    (req : Auth.Request) (attempts attempts' :
       gmap string RateLimiter.AttemptRecord) :
  Auth.authMiddleware trim proc now1 now2 req attempts
  = Some (Auth.CallNext, attempts') ->
  (Auth.isAuthEnabled proc = false /\ attempts' = attempts)
  \/ exists key ip,
       env proc !! "AUTOMAKER_API_KEY" = Some key /\ key <> "" /\
       Auth.xApiKey req = Some key /\
       Auth.getClientIp trim req = Some ip /\
       fst (RateLimiter.isBlocked now1 ip attempts) = false /\
       attempts' !! ip = None.
Proof.
  unfold Auth.authMiddleware, Auth.isAuthEnabled.
  destruct (Security.envTruthy proc "AUTOMAKER_API_KEY") as [key|] eqn:Hk.
  - apply envTruthy_Some in Hk as [Hk Hne].
    destruct (Auth.getClientIp trim req) as [ip|]; [|discriminate].
    destruct (RateLimiter.isBlocked now1 ip attempts) as [[|] a1] eqn:Hb;
      [discriminate|].
    destruct (Auth.xApiKey req) as [provided|]; [|discriminate].
    destruct (JsString.truthy provided); cbn [negb]; [|discriminate].
    destruct (Auth.secureCompare provided key) eqn:Hs; cbn [negb].
    + apply secureCompare_iff in Hs. subst provided.
      intros H. inversion H; subst. right. exists key, ip.
      split; [exact Hk|]. split; [exact Hne|]. split; [reflexivity|].
      split; [reflexivity|]. split; [rewrite Hb; reflexivity|].
      apply lookup_delete_eq.
    + destruct (RateLimiter.recordFailure _ _ _ _); discriminate.
  - intros H. inversion H; subst. left. split; [|reflexivity].
    unfold Security.envTruthy in Hk.
    destruct (env proc !! "AUTOMAKER_API_KEY") as [v|]; [|reflexivity].
    destruct (JsString.truthy v); [discriminate | reflexivity].
Qed.

Lemma authMiddleware_passes_only_the_configured_key_witness :
  Auth.authMiddleware AuthDemo.trim AuthDemo.proc 0 0
    (AuthDemo.request "correct-key") ∅ = Some (Auth.CallNext, ∅)
  /\ ((Auth.isAuthEnabled AuthDemo.proc = false /\
       (∅ : gmap string RateLimiter.AttemptRecord) = ∅)
      \/ exists key ip,
           env AuthDemo.proc !! "AUTOMAKER_API_KEY" = Some key /\
           key <> "" /\
           Auth.xApiKey (AuthDemo.request "correct-key") = Some key /\
           Auth.getClientIp AuthDemo.trim (AuthDemo.request "correct-key")
           = Some ip /\
           fst (RateLimiter.isBlocked 0 ip ∅) = false /\
           (∅ : gmap string RateLimiter.AttemptRecord) !! ip = None).
Proof.
  split; [vm_compute; reflexivity|].
  apply (authMiddleware_passes_only_the_configured_key AuthDemo.trim
           AuthDemo.proc 0 0 (AuthDemo.request "correct-key") ∅ ∅).
  vm_compute. reflexivity.
Defined.

Lemma attemptsRemaining_after_failure (now : Z) (ip : string)
    (attempts : gmap string RateLimiter.AttemptRecord) :
  RateLimiter.getAttemptsRemaining RateLimiter.DEFAULT_CONFIG now ip
    (snd (RateLimiter.recordFailure RateLimiter.DEFAULT_CONFIG now ip
            attempts))
  = Z.max 0
      (RateLimiter.getAttemptsRemaining RateLimiter.DEFAULT_CONFIG now ip
         attempts - 1).
Proof.
  unfold RateLimiter.getAttemptsRemaining, RateLimiter.recordFailure.
  destruct (attempts !! ip) as [record|].
  - destruct (RateLimiter.windowMs RateLimiter.DEFAULT_CONFIG
              <? now - RateLimiter.firstAttempt record)%Z eqn:E.
    + cbn [snd]. rewrite lookup_insert_eq.
      cbn [RateLimiter.firstFailure RateLimiter.firstAttempt
           RateLimiter.count]. rewrite Z.sub_diag. reflexivity.
    + destruct (RateLimiter.maxAttempts RateLimiter.DEFAULT_CONFIG
                <=? RateLimiter.count record + 1)%Z;
        cbn [snd]; rewrite lookup_insert_eq;
        cbn [RateLimiter.firstAttempt RateLimiter.count];
        rewrite E; lia.
  - cbn [snd]. rewrite lookup_insert_eq.
    cbn [RateLimiter.firstFailure RateLimiter.firstAttempt
         RateLimiter.count]. rewrite Z.sub_diag. reflexivity.
Qed.

(** X19.  With a key configured and the client not blocked: a request
    with no key or an empty key is answered 401 and costs the client no
    attempt; a request with a wrong key is answered 403 and costs exactly
    one attempt (never below zero), leaving the other clients as they
    were. *)
Theorem wrong_key_costs_one_attempt (trim : string -> string)
    (proc : Process) (now1 now2 : Z) (req : Auth.Request)
    (attempts : gmap string RateLimiter.AttemptRecord) (key ip : string) :
  Security.envTruthy proc "AUTOMAKER_API_KEY" = Some key ->
  Auth.getClientIp trim req = Some ip ->
  fst (RateLimiter.isBlocked now1 ip attempts) = false ->
  let attempts1 := snd (RateLimiter.isBlocked now1 ip attempts) in
  (Auth.xApiKey req = None \/ Auth.xApiKey req = Some "" ->
   Auth.authMiddleware trim proc now1 now2 req attempts
   = Some (Auth.Reply 401 None
             "Authentication required. Provide X-API-Key header." None,
           attempts1))
  /\ (forall provided,
        Auth.xApiKey req = Some provided ->
        provided <> "" -> provided <> key ->
        exists attempts2,
          Auth.authMiddleware trim proc now1 now2 req attempts
          = Some (invalidApiKey, attempts2)
          /\ RateLimiter.getAttemptsRemaining RateLimiter.DEFAULT_CONFIG
               now2 ip attempts2
             = Z.max 0
                 (RateLimiter.getAttemptsRemaining
                    RateLimiter.DEFAULT_CONFIG now2 ip attempts1 - 1)
          /\ forall other, other <> ip ->
                           attempts2 !! other = attempts1 !! other).
Proof.
  intros Hk Hip Hb attempts1. subst attempts1.
  unfold Auth.authMiddleware. rewrite Hk, Hip.
  destruct (RateLimiter.isBlocked now1 ip attempts) as [blocked a1].
  cbn [fst snd] in *. subst blocked. split.
  - intros [H|H]; rewrite H; reflexivity.
  - intros provided Hp Hne Hwrong. rewrite Hp.
    apply truthy_iff in Hne. rewrite Hne. cbn [negb].
    assert (Hs : Auth.secureCompare provided key = false).
    { destruct (Auth.secureCompare provided key) eqn:E; [|reflexivity].
      apply secureCompare_iff in E. contradiction. }
    rewrite Hs. cbn [negb].
    pose proof (attemptsRemaining_after_failure now2 ip a1) as Hrem.
    assert (Hother : forall other, other <> ip ->
               snd (RateLimiter.recordFailure RateLimiter.DEFAULT_CONFIG
                      now2 ip a1) !! other = a1 !! other).
    { intros other Hne'. unfold RateLimiter.recordFailure.
      destruct (a1 !! ip) as [record|];
        [destruct (_ <? _)%Z; [|destruct (_ <=? _)%Z]|];
        cbn [snd]; apply lookup_insert_ne; congruence. }
    destruct (RateLimiter.recordFailure RateLimiter.DEFAULT_CONFIG now2 ip
                a1) as [b a2].
    exists a2. cbn [snd] in *. split; [reflexivity|].
    split; [exact Hrem | exact Hother].
Qed.

Lemma wrong_key_costs_one_attempt_witness :
  exists attempts2,
    Auth.authMiddleware AuthDemo.trim AuthDemo.proc 0 0
      (AuthDemo.request "wrong-key") ∅ = Some (invalidApiKey, attempts2)
    /\ RateLimiter.getAttemptsRemaining RateLimiter.DEFAULT_CONFIG 0
         "192.168.1.100" attempts2 = 4%Z.
Proof.
  destruct (wrong_key_costs_one_attempt AuthDemo.trim AuthDemo.proc 0 0
              (AuthDemo.request "wrong-key") ∅ "correct-key"
              "192.168.1.100") as [_ H].
  - vm_compute. reflexivity.
  - vm_compute. reflexivity.
  - vm_compute. reflexivity.
  - destruct (H "wrong-key") as (a2 & H1 & H2 & _).
    + reflexivity.
    + discriminate.
    + discriminate.
    + exists a2. split; [exact H1|]. rewrite H2. vm_compute. reflexivity.
Defined.

Lemma authMiddleware_wrong_key_step (trim : string -> string)
    (proc : Process) (key ip : string) (request : Z * Z * Auth.Request)
    (attempts : gmap string RateLimiter.AttemptRecord) :
  Security.envTruthy proc "AUTOMAKER_API_KEY" = Some key ->
  wrongKeyRequest trim key ip request ->
  (forall record, attempts !! ip = Some record ->
                  RateLimiter.blockedUntil record = None) ->
  Auth.authMiddleware trim proc (fst (fst request)) (failureTime request)
    (snd request) attempts
  = Some (invalidApiKey,
          snd (RateLimiter.recordFailure RateLimiter.DEFAULT_CONFIG
                 (failureTime request) ip attempts)).
Proof.
  intros Hk (Hip & provided & Hp & Hne & Hwrong) Hfree.
  unfold Auth.authMiddleware. rewrite Hk, Hip.
  assert (Hb : RateLimiter.isBlocked (fst (fst request)) ip attempts
               = (false, attempts)).
  { unfold RateLimiter.isBlocked.
    destruct (attempts !! ip) as [record|] eqn:E; [|reflexivity].
    rewrite (Hfree record eq_refl). reflexivity. }
  rewrite Hb, Hp. apply truthy_iff in Hne. rewrite Hne. cbn [negb].
  assert (Hs : Auth.secureCompare provided key = false).
  { destruct (Auth.secureCompare provided key) eqn:E; [|reflexivity].
    apply secureCompare_iff in E. contradiction. }
  rewrite Hs. cbn [negb].
  destruct (RateLimiter.recordFailure _ _ _ _); reflexivity.
Qed.

Lemma authAttempts_reach_threshold (trim : string -> string)
    (proc : Process) (key ip : string)
    (requests : list (Z * Z * Auth.Request)) :
  Security.envTruthy proc "AUTOMAKER_API_KEY" = Some key ->
  forall (attempts : gmap string RateLimiter.AttemptRecord)
         (record : RateLimiter.AttemptRecord)
         (last : Z * Z * Auth.Request),
    attempts !! ip = Some record ->
    RateLimiter.blockedUntil record = None ->
    Forall (wrongKeyRequest trim key ip) (requests ++ [last]) ->
    Forall (fun request =>
              (failureTime request - RateLimiter.firstAttempt record
               <= 900000)%Z) (requests ++ [last]) ->
    (RateLimiter.count record + Z.of_nat (length (requests ++ [last]))
     = 5)%Z ->
    Auth.authAttempts trim proc
      (map (fun request => (fst (fst request), failureTime request,
                            snd request)) (requests ++ [last]))
      attempts
    = Some (repeat invalidApiKey (S (length requests)),
            <[ip := {| RateLimiter.count := 5;
                       RateLimiter.firstAttempt :=
                         RateLimiter.firstAttempt record;
                       RateLimiter.blockedUntil :=
                         Some (failureTime last + 900000)%Z |}]> attempts).
Proof.
  intros Hk. induction requests as [|request requests IH];
    intros attempts record last Hip Hb Hwrong Hwin Hcount.
  - cbn [app map Auth.authAttempts length repeat] in *.
    inversion Hwrong as [|? ? Hw _]; subst.
    inversion Hwin as [|? ? Ht _]; subst.
    rewrite (authMiddleware_wrong_key_step trim proc key ip last attempts
               Hk Hw).
    + unfold RateLimiter.recordFailure. rewrite Hip.
      assert (E1 : (RateLimiter.windowMs RateLimiter.DEFAULT_CONFIG
                    <? failureTime last
                       - RateLimiter.firstAttempt record)%Z = false)
        by (apply Z.ltb_ge; cbn; lia).
      assert (E2 : (RateLimiter.maxAttempts RateLimiter.DEFAULT_CONFIG
                    <=? RateLimiter.count record + 1)%Z = true)
        by (apply Z.leb_le; cbn; lia).
      rewrite E1, E2. cbn [snd].
      replace (RateLimiter.count record + 1)%Z with 5%Z by lia.
      reflexivity.
    + intros r Hr. congruence.
  - cbn [app map Auth.authAttempts length repeat] in *.
    inversion Hwrong as [|? ? Hw Hwrest]; subst.
    inversion Hwin as [|? ? Ht Htrest]; subst.
    rewrite length_app in Hcount. cbn [length] in Hcount.
    rewrite (authMiddleware_wrong_key_step trim proc key ip request
               attempts Hk Hw) by (intros r Hr; congruence).
    unfold RateLimiter.recordFailure. rewrite Hip.
    assert (E1 : (RateLimiter.windowMs RateLimiter.DEFAULT_CONFIG
                  <? failureTime request
                     - RateLimiter.firstAttempt record)%Z = false)
      by (apply Z.ltb_ge; cbn; lia).
    assert (E2 : (RateLimiter.maxAttempts RateLimiter.DEFAULT_CONFIG
                  <=? RateLimiter.count record + 1)%Z = false)
      by (apply Z.leb_gt; cbn; lia).
    rewrite E1, E2, Hb. cbn [snd].
    rewrite (IH _ {| RateLimiter.count := RateLimiter.count record + 1;
                     RateLimiter.firstAttempt :=
                       RateLimiter.firstAttempt record;
                     RateLimiter.blockedUntil := None |} last).
    + cbn [RateLimiter.firstAttempt]. rewrite insert_insert_eq.
      reflexivity.
    + apply lookup_insert_eq.
    + reflexivity.
    + exact Hwrest.
    + exact Htrest.
    + cbn [RateLimiter.count]. rewrite length_app. cbn [length]. lia.
Qed.

Lemma request_triples (requests : list (Z * Z * Auth.Request)) :
  map (fun request => (fst (fst request), failureTime request, snd request))
    requests = requests.
Proof.
  induction requests as [|[[now1 now2] req] requests IH]; [reflexivity|].
  cbn [map]. rewrite IH. reflexivity.
Qed.

(** X20.  Lockout of the API.  Five requests of one client with a wrong
    key, the failures of the last four recorded within fifteen minutes of
    the first, are each answered 403; from then until fifteen minutes
    after the last failure every request of that client is answered 429,
    also one that carries the configured key, and the [Retry-After] it
    announces lies between 1 and 900 seconds. *)
Theorem five_wrong_keys_lock_the_client_out (trim : string -> string)
    (proc : Process) (key ip : string)
    (attempts : gmap string RateLimiter.AttemptRecord)
    (first last : Z * Z * Auth.Request)
    (between : list (Z * Z * Auth.Request)) :
  Security.envTruthy proc "AUTOMAKER_API_KEY" = Some key ->
  attempts !! ip = None ->
  length between = 3%nat ->
  Forall (wrongKeyRequest trim key ip) (first :: between ++ [last]) ->
  Forall (fun request =>
            (failureTime request - failureTime first <= 900000)%Z)
    (between ++ [last]) ->
  (0 <= failureTime last)%Z ->
  exists attempts',
    Auth.authAttempts trim proc (first :: between ++ [last]) attempts
    = Some (repeat invalidApiKey 5, attempts')
    /\ (forall now1 now2 req,
          Auth.getClientIp trim req = Some ip ->
          (now1 < failureTime last + 900000)%Z ->
          Auth.authMiddleware trim proc now1 now2 req attempts'
          = Some (Auth.rateLimited now2 ip attempts', attempts'))
    /\ (forall now2,
          (failureTime last <= now2 < failureTime last + 900000)%Z ->
          exists seconds,
            Auth.rateLimited now2 ip attempts'
            = Auth.Reply 429 (Some (pretty seconds)) Auth.tooManyAttempts
                (Some seconds)
            /\ (1 <= seconds <= 900)%Z).
Proof.
  intros Hk Hip Hlen Hwrong Hwin Hlast.
  inversion Hwrong as [|? ? Hw Hwrest]; subst.
  destruct first as [[f1 f2] freq].
  cbn [Auth.authAttempts].
  pose proof (authMiddleware_wrong_key_step trim proc key ip (f1, f2, freq)
                attempts Hk Hw) as Hstep.
  cbn [fst snd failureTime] in Hstep. rewrite Hstep by congruence.
  unfold RateLimiter.recordFailure. rewrite Hip. cbn [snd].
  pose proof (authAttempts_reach_threshold trim proc key ip between Hk
                (<[ip := RateLimiter.firstFailure f2]> attempts)
                (RateLimiter.firstFailure f2) last) as Hrest.
  rewrite request_triples in Hrest. rewrite Hrest.
  - rewrite insert_insert_eq. rewrite Hlen.
    eexists. split; [reflexivity|].
    cbn [RateLimiter.firstFailure RateLimiter.firstAttempt].
    assert (E : (failureTime last + 900000 =? 0)%Z = false)
      by (apply Z.eqb_neq; lia).
    split.
    + intros now1 now2 req Hreq Hnow. unfold Auth.authMiddleware.
      rewrite Hk, Hreq. unfold RateLimiter.isBlocked.
      rewrite lookup_insert_eq.
      cbn [RateLimiter.blockedUntil RateLimiter.blockSet]. rewrite E.
      assert (E' : (now1 <? failureTime last + 900000)%Z = true)
        by (apply Z.ltb_lt; lia).
      rewrite E'. reflexivity.
    + intros now2 Hnow. eexists. split.
      * unfold Auth.rateLimited. reflexivity.
      * unfold RateLimiter.getBlockTimeRemaining.
        rewrite lookup_insert_eq.
        cbn [RateLimiter.blockedUntil RateLimiter.blockSet]. rewrite E.
        assert (E' : (0 <? failureTime last + 900000 - now2)%Z = true)
          by (apply Z.ltb_lt; lia).
        rewrite E'. unfold Auth.ceilSeconds.
        assert (H1 : (- 900 <= - (failureTime last + 900000 - now2) / 1000
                      <= - 1)%Z).
        { split.
          - apply Z.div_le_lower_bound; lia.
          - apply Z.lt_succ_r. apply Z.div_lt_upper_bound; lia. }
        lia.
  - apply lookup_insert_eq.
  - reflexivity.
  - exact Hwrest.
  - cbn [RateLimiter.firstFailure RateLimiter.firstAttempt]. exact Hwin.
  - cbn [RateLimiter.firstFailure RateLimiter.count].
    rewrite length_app, Hlen. reflexivity.
Qed.

Lemma five_wrong_keys_lock_the_client_out_witness :
  exists attempts',
    Auth.authAttempts AuthDemo.trim AuthDemo.proc
      ((0, 1, AuthDemo.request "wrong-1")
       :: [(10, 11, AuthDemo.request "wrong-2");
           (20, 21, AuthDemo.request "wrong-3");
           (30, 31, AuthDemo.request "wrong-4")]
          ++ [(40, 41, AuthDemo.request "wrong-5")])%Z ∅
    = Some (repeat invalidApiKey 5, attempts')
    /\ Auth.authMiddleware AuthDemo.trim AuthDemo.proc 50 51
         (AuthDemo.request "correct-key") attempts'
       = Some (Auth.rateLimited 51 "192.168.1.100" attempts', attempts').
Proof.
  destruct (five_wrong_keys_lock_the_client_out AuthDemo.trim AuthDemo.proc
              "correct-key" "192.168.1.100" ∅
              (0, 1, AuthDemo.request "wrong-1")%Z
              (40, 41, AuthDemo.request "wrong-5")%Z
              [(10, 11, AuthDemo.request "wrong-2");
               (20, 21, AuthDemo.request "wrong-3");
               (30, 31, AuthDemo.request "wrong-4")]%Z)
    as (attempts' & H1 & H2 & _).
  - vm_compute. reflexivity.
  - reflexivity.
  - reflexivity.
  - repeat constructor; try (vm_compute; reflexivity);
      eexists; (split; [reflexivity|]); split; discriminate.
  - repeat constructor; vm_compute; discriminate.
  - vm_compute. discriminate.
  - exists attempts'. split; [exact H1|].
    apply H2; [vm_compute; reflexivity | reflexivity].
Defined.

(** ** The two validators together *)

(** X21.  On an existing entry with no symbolic link on the way (its real
    path is its resolved path) the symlink-aware validator returns a path
    exactly when [validatePath] does, and the same one. *)
Theorem validators_agree_without_links (proc : Process) (st : PolicyState)
    (fs : FileSystem) (p : string) (requireExists : bool) (stats : Stats) :
  lstatSync fs (Security.resolve proc p) = inr stats ->
  realpathSync fs (Security.resolve proc p) = inr (Security.resolve proc p) ->
  forall r,
    outcome (Security.validatePathWithSymlinkCheck proc st fs p
               requireExists) = Ok r
    <-> Security.validatePath proc st p = Ok r.
Proof.
  intros Hl Hr r. rewrite validatePathWithSymlinkCheck_run. cbv zeta.
  rewrite Hl, Hr, validatePath_cases.
  destruct (Security.isPathAllowed proc st (Security.resolve proc p));
    unfold outcome; cbn [snd]; split; intros H;
    try discriminate; exact H.
Qed.

Lemma validators_agree_without_links_witness :
  outcome (Security.validatePathWithSymlinkCheck Demo.proc Demo.st Demo.fs
             "/allowed/docs/a.txt" true) = Ok "/allowed/docs/a.txt"
  <-> Security.validatePath Demo.proc Demo.st "/allowed/docs/a.txt"
      = Ok "/allowed/docs/a.txt".
Proof.
  apply (validators_agree_without_links Demo.proc Demo.st Demo.fs
           "/allowed/docs/a.txt" true {| isSymbolicLink := false |});
    vm_compute; reflexivity.
Defined.

(** X22.  [requireExists] matters for missing entries only: when neither
    probe of the entry answers [ENOENT], the validator does the same with
    [requireExists] false as with true, so an operation that may create
    an entry refuses an existing link that leads outside just as a
    reading operation does. *)
Theorem requireExists_matters_only_for_missing_entries (proc : Process)
    (st : PolicyState) (fs : FileSystem) (p : string) :
  lstatSync fs (Security.resolve proc p) <> inl ENOENT ->
  realpathSync fs (Security.resolve proc p) <> inl ENOENT ->
  Security.validatePathWithSymlinkCheck proc st fs p false
  = Security.validatePathWithSymlinkCheck proc st fs p true.
Proof.
  intros Hl Hr. rewrite !validatePathWithSymlinkCheck_run. cbv zeta.
  destruct (lstatSync fs (Security.resolve proc p)) as [[]|stats];
    try reflexivity; try contradiction.
  destruct (realpathSync fs (Security.resolve proc p)) as [[]|real];
    try reflexivity; contradiction.
Qed.

Lemma requireExists_matters_only_for_missing_entries_witness :
  run Demo.proc Demo.st Demo.fs (WriteFile "/allowed/link/passwd" "x" None)
  = ([EvLstatSync "/allowed/link/passwd";
      EvRealpathSync "/allowed/link/passwd"],
     Throw (PathNotAllowedError
              "/allowed/link/passwd (resolves to /etc/passwd via symlink)")).
Proof.
  unfold run, SecureFs.writeFile, SecureFs.validatePathWithSymlinkCheck.
  rewrite (requireExists_matters_only_for_missing_entries Demo.proc Demo.st
             Demo.fs "/allowed/link/passwd").
  - vm_compute. reflexivity.
  - vm_compute. discriminate.
  - vm_compute. discriminate.
Defined.

(** X23.  [authMiddleware] is [createRateLimitMiddleware] followed by the
    check of the key: with a key configured, whatever the rate-limit
    middleware answers other than [next()] is the answer of
    [authMiddleware], with the same effect on the limiter; and when the
    rate-limit middleware calls [next()], [authMiddleware] answers 429 to
    nobody. *)
Theorem authMiddleware_starts_with_the_rate_limit (trim : string -> string)
    (proc : Process) (key : string) (now1 now2 : Z) (req : Auth.Request)
    (attempts : gmap string RateLimiter.AttemptRecord) :
  Security.envTruthy proc "AUTOMAKER_API_KEY" = Some key ->
  match Auth.createRateLimitMiddleware trim now1 now2 req attempts with
  | None => Auth.authMiddleware trim proc now1 now2 req attempts = None
  | Some (Auth.CallNext, _) =>
      forall response attempts',
        Auth.authMiddleware trim proc now1 now2 req attempts
        = Some (response, attempts') ->
        forall header error retryAfter,
          response <> Auth.Reply 429 header error retryAfter
  | Some (response, attempts') =>
      Auth.authMiddleware trim proc now1 now2 req attempts
      = Some (response, attempts')
  end.
Proof.
  intros Hk. unfold Auth.createRateLimitMiddleware, Auth.authMiddleware.
  rewrite Hk. destruct (Auth.getClientIp trim req) as [ip|]; [|reflexivity].
  destruct (RateLimiter.isBlocked now1 ip attempts) as [[|] a1];
    [reflexivity|].
  intros response attempts'.
  destruct (Auth.xApiKey req) as [provided|].
  - destruct (JsString.truthy provided); cbn [negb].
    + destruct (Auth.secureCompare provided key); cbn [negb].
      * intros H. inversion H; subst. discriminate.
      * destruct (RateLimiter.recordFailure _ _ _ _).
        intros H. inversion H; subst. discriminate.
    + intros H. inversion H; subst. discriminate.
  - intros H. inversion H; subst. discriminate.
Qed.

Lemma authMiddleware_starts_with_the_rate_limit_witness :
  Auth.authMiddleware AuthDemo.trim AuthDemo.proc 1000 1500
    (AuthDemo.request "correct-key")
    {[ "192.168.1.100" :=
         {| RateLimiter.count := 5; RateLimiter.firstAttempt := 0;
            RateLimiter.blockedUntil := Some 900000%Z |} ]}
  = Auth.createRateLimitMiddleware AuthDemo.trim 1000 1500
      (AuthDemo.request "correct-key")
      {[ "192.168.1.100" :=
           {| RateLimiter.count := 5; RateLimiter.firstAttempt := 0;
              RateLimiter.blockedUntil := Some 900000%Z |} ]}.
Proof.
  pose proof (authMiddleware_starts_with_the_rate_limit AuthDemo.trim
                AuthDemo.proc "correct-key" 1000 1500
                (AuthDemo.request "correct-key")
                {[ "192.168.1.100" :=
                     {| RateLimiter.count := 5;
                        RateLimiter.firstAttempt := 0;
                        RateLimiter.blockedUntil := Some 900000%Z |} ]}
                eq_refl) as H.
  destruct (Auth.createRateLimitMiddleware AuthDemo.trim 1000 1500
              (AuthDemo.request "correct-key") _) as [[[|] ?]|] eqn:E;
    try exact H.
  vm_compute in E. discriminate E.
Defined.
